(** * IMDB reviews EDA: the tokenizer and the aggregation of the two
      JavaScript front ends, and the log-odds score of the offline script.

    - [Main] embeds the static page's script (src/unnamed/part_001): the
      functions [sanitizeText], [tokenize], [computeMetrics], [topEntries]
      and the row normalisation of [parseCsvText].
    - [React] embeds the React component (src/unnamed/part_000): the row
      filter of [loadData], [analyzeSentiment], the word filter of
      [applyFilters], and the state of the component with its handlers, its
      effect and the renders of an event.
    - [LogOdds] is the score of the association scorer, whose script
      (src/generate_eda.py) is not among the sources.

    JavaScript strings are sequences of UTF-16 code units, numbers that only
    ever hold counts are [nat]. A quotient of two counts is [NaN], [Infinity]
    or finite; a finite one is written as the exact rational whose nearest
    double [/] returns, so that what is stated of an average is what the
    rounding keeps: that it is zero, that it is finite, that it lies between
    two whole numbers. *)

From Stdlib Require Import List NArith ZArith QArith Lia Bool Permutation Sorted.
From Stdlib Require Strings.Ascii Strings.String.
From Stdlib Require Import Reals Lra.
Import ListNotations.
Import String.StringSyntax.
Delimit Scope string_scope with string.
#[local] Open Scope string_scope.

#[local] Close Scope R_scope.
#[local] Close Scope Q_scope.
#[local] Close Scope Z_scope.
#[local] Open Scope nat_scope.
#[local] Open Scope list_scope.
#[local] Open Scope bool_scope.

(** ** JavaScript strings and the library functions the two scripts call *)

Module JS.

(** A UTF-16 code unit. *)
Definition codeunit := N.

(** A JavaScript string value. *)
Definition jsstring := list codeunit.

(** The string written as an ASCII literal. *)
Definition lit (s : String.string) : jsstring :=
  map Ascii.N_of_ascii (String.list_ascii_of_string s).

Definition jsstring_eq_dec : forall a b : jsstring, {a = b} + {a <> b} :=
  list_eq_dec N.eq_dec.

(** [===] on two strings. *)
Definition streq (a b : jsstring) : bool :=
  if jsstring_eq_dec a b then true else false.

(** [\s] of a regular expression without the [u] flag: the WhiteSpace and
    LineTerminator code points of ECMAScript. [String.prototype.trim] strips
    the same set. *)
Definition is_space (c : codeunit) : bool :=
  ((9 <=? c) && (c <=? 13) || (c =? 32) || (c =? 160) || (c =? 5760)
   || (8192 <=? c) && (c <=? 8202) || (c =? 8232) || (c =? 8233)
   || (c =? 8239) || (c =? 8287) || (c =? 12288) || (c =? 65279))%N.

(** [[a-z]]. *)
Definition is_lower (c : codeunit) : bool := ((97 <=? c) && (c <=? 122))%N.

(** [[A-Z]]. *)
Definition is_upper (c : codeunit) : bool := ((65 <=? c) && (c <=? 90))%N.

(** [[0-9]]. *)
Definition is_digit (c : codeunit) : bool := ((48 <=? c) && (c <=? 57))%N.

(** [\w], that is [[A-Za-z0-9_]]. *)
Definition is_word (c : codeunit) : bool :=
  is_lower c || is_upper c || is_digit c || (c =? 95)%N.

Definition space : codeunit := 32%N.

(** What [String.prototype.toLowerCase] does to a code unit below 128. *)
Definition asciiLower (c : codeunit) : codeunit :=
  if is_upper c then (c + 32)%N else c.

(** [toLowerCase] follows the Unicode case mappings, which the model does not
    carry: the functions below take it as a parameter. All that is ever
    assumed of it, and only where a statement says so, is its value on
    strings of code units below 128. *)
Definition lowercases_ascii (toLowerCase : jsstring -> jsstring) : Prop :=
  forall s, Forall (fun c => (c < 128)%N) s -> toLowerCase s = map asciiLower s.

(** A [toLowerCase] to run the functions on ASCII inputs: code units from 128
    on are left alone. *)
Definition toLowerCaseAscii (s : jsstring) : jsstring := map asciiLower s.

(** [x ?? y] on values that are a string or undefined. *)
Definition nullish {A} (x : option A) (y : option A) : option A :=
  match x with Some _ => x | None => y end.

(** Truthiness of a value that is a string or undefined. *)
Definition truthy (x : option jsstring) : bool :=
  match x with Some (_ :: _) => true | _ => false end.

(** [s.split(' ')] and the like: the pieces between the occurrences of a
    one-unit separator; the empty string gives one empty piece. *)
Fixpoint split (sep : codeunit) (s : jsstring) : list jsstring :=
  match s with
  | [] => [[]]
  | c :: r =>
      if (c =? sep)%N then [] :: split sep r
      else match split sep r with
           | [] => [[c]]
           | w :: ws => (c :: w) :: ws
           end
  end.

(** [s.split(/\s+/)]: the pieces between the maximal runs of white space.
    [in_run] tells that the unit before was white space, so that a run yields
    one cut. White space at either end leaves an empty piece there. *)
Fixpoint split_ws_from (in_run : bool) (s : jsstring) : list jsstring :=
  match s with
  | [] => [[]]
  | c :: r =>
      if is_space c then
        if in_run then split_ws_from true r else [] :: split_ws_from true r
      else match split_ws_from false r with
           | [] => [[c]]
           | w :: ws => (c :: w) :: ws
           end
  end.

Definition split_ws (s : jsstring) : list jsstring := split_ws_from false s.

(** [ws.join(' ')]. *)
Fixpoint join (sep : codeunit) (ws : list jsstring) : jsstring :=
  match ws with
  | [] => []
  | [w] => w
  | w :: ws' => w ++ sep :: join sep ws'
  end.

(** [s.trim()]. *)
Fixpoint trimStart (s : jsstring) : jsstring :=
  match s with
  | c :: r => if is_space c then trimStart r else s
  | [] => []
  end.

Definition trim (s : jsstring) : jsstring := rev (trimStart (rev (trimStart s))).

(** [arr.slice(0, n)] for an integer [n]: a negative [n] counts from the end. *)
Definition slice0 {A} (n : Z) (arr : list A) : list A :=
  if (n <? 0)%Z then firstn (Z.to_nat (Z.of_nat (length arr) + n)) arr
  else firstn (Z.to_nat n) arr.

(** [arr.sort((a, b) => key(b) - key(a))] on integer keys. The sort of
    ECMAScript is stable; an insertion from the right is: an element goes in
    front of the first one whose key is not greater. *)
Section Sort.
Context {A : Type} (key : A -> nat).

Fixpoint insert_desc (x : A) (l : list A) : list A :=
  match l with
  | [] => [x]
  | y :: ys => if key x <? key y then y :: insert_desc x ys else x :: l
  end.

Definition sort_desc (l : list A) : list A := fold_right insert_desc [] l.
End Sort.

(** A [Map] from strings to counts: the entries in insertion order, which is
    the order [map.entries()] yields them in. *)
Definition JsMap := list (jsstring * nat).

(** [map.get(k)]; [None] is undefined. *)
Fixpoint map_get (m : JsMap) (k : jsstring) : option nat :=
  match m with
  | [] => None
  | (k', v) :: m' => if streq k' k then Some v else map_get m' k
  end.

(** [map.set(k, v)]: a key the map holds keeps its place, a new one goes
    last. *)
Fixpoint map_set (m : JsMap) (k : jsstring) (v : nat) : JsMap :=
  match m with
  | [] => [(k, v)]
  | (k', v') :: m' =>
      if streq k' k then (k', v) :: m' else (k', v') :: map_set m' k v
  end.

(** [x || 0] on the result of [map.get]. *)
Definition or0 (x : option nat) : nat :=
  match x with Some v => v | None => 0 end.

(** The value of a quotient of two counts: a Number that is [NaN], [Infinity]
    or finite. [Finite q] is the Number that [/] returns for the exact
    quotient [q], which is the double nearest to [q]: the quotient is kept,
    its rounding is not carried out. The rounding is monotone and leaves
    whole numbers below 2^53 alone, so that it keeps a zero and every bound
    by such a whole number. *)
Inductive number :=
  | NaN
  | Infinity
  | Finite (q : Q).

(** [a / b] on two counts. *)
Definition div (a b : nat) : number :=
  match b, a with
  | 0, 0 => NaN
  | 0, _ => Infinity
  | _, _ => Finite (Z.of_nat a # Pos.of_nat b)
  end.

(** [String(x ?? '')] on a value that is a string or undefined. *)
Definition str (x : option jsstring) : jsstring :=
  match x with Some s => s | None => [] end.

End JS.

(** ** A row as Papa Parse hands it over with [header: true]

    One property per header column, each a string; [None] is a column the
    file does not have. Only the columns the scripts read are kept. *)

Module Papa.
Import JS.

Record Row := {
  review    : option jsstring;
  text      : option jsstring;
  content   : option jsstring;
  sentiment : option jsstring;
  label     : option jsstring
}.

End Papa.

(** ** The static page's script (src/unnamed/part_001) *)

Module Main.
Import JS.

Definition ENGLISH_STOPWORDS : list jsstring := map lit [
    "a"; "an"; "the"; "and"; "or"; "but"; "if"; "then"; "else"; "when"; "at";
    "by"; "for"; "with"; "about"; "against"; "between"; "into"; "through";
    "during"; "before"; "after"; "to"; "from"; "up"; "down"; "in"; "out";
    "on"; "off"; "over"; "under"; "again"; "further"; "once"; "here";
    "there"; "all"; "any"; "both"; "each"; "few"; "more"; "most"; "other";
    "some"; "such"; "no"; "nor"; "not"; "only"; "own"; "same"; "so"; "than";
    "too"; "very"; "can"; "will"; "just"; "don"; "should"; "now"; "is"; "am";
    "are"; "was"; "were"; "be"; "been"; "being"; "do"; "does"; "did";
    "having"; "have"; "has"; "i"; "me"; "my"; "myself"; "we"; "our"; "ours";
    "ourselves"; "you"; "your"; "yours"; "yourself"; "yourselves"; "he";
    "him"; "his"; "himself"; "she"; "her"; "hers"; "herself"; "it"; "its";
    "itself"; "they"; "them"; "their"; "theirs"; "themselves"; "what";
    "which"; "who"; "whom"; "this"; "that"; "these"; "those"; "because";
    "why"; "how"
  ]%string.

(** [ENGLISH_STOPWORDS.has(w)]. *)
Definition isStopword (w : jsstring) : bool :=
  existsb (streq w) ENGLISH_STOPWORDS.

(** [s] starts with [p]; the rest of [s] after it. *)
Fixpoint after_prefix (p s : jsstring) : option jsstring :=
  match p, s with
  | [], _ => Some s
  | _ :: _, [] => None
  | a :: p', c :: s' => if (a =? c)%N then after_prefix p' s' else None
  end.

(** [/https?:\/\/\S+/] matches at the start of [s]: one of the two schemes,
    then at least one unit that is not white space. *)
Definition url_at (s : jsstring) : bool :=
  match after_prefix (lit "https://") s with
  | Some (c :: _) => negb (is_space c)
  | _ =>
      match after_prefix (lit "http://") s with
      | Some (c :: _) => negb (is_space c)
      | _ => false
      end
  end.

(** [.replace(/https?:\/\/\S+/g, ' ')]. No unit of a scheme is white space
    and [\S+] is greedy, so a match runs from its [h] to the next white space
    or to the end: [in_url] says that the scan is inside a match, whose units
    are dropped; the space that replaces the match is put where it starts. *)
Fixpoint stripUrls_from (in_url : bool) (s : jsstring) : jsstring :=
  match s with
  | [] => []
  | c :: r =>
      if in_url then
        if is_space c then c :: stripUrls_from false r
        else stripUrls_from true r
      else if url_at s then space :: stripUrls_from true r
      else c :: stripUrls_from false r
  end.

Definition stripUrls (s : jsstring) : jsstring := stripUrls_from false s.

(** [.replace(/[^a-z\s]/g, ' ')]. *)
Definition replaceNonLetters (s : jsstring) : jsstring :=
  map (fun c => if is_lower c || is_space c then c else space) s.

(** [.replace(/\s+/g, ' ')]: a maximal run of white space becomes one space,
    put where the run starts. *)
Fixpoint collapse_from (in_run : bool) (s : jsstring) : jsstring :=
  match s with
  | [] => []
  | c :: r =>
      if is_space c then
        if in_run then collapse_from true r else space :: collapse_from true r
      else c :: collapse_from false r
  end.

Definition collapseSpaces (s : jsstring) : jsstring := collapse_from false s.

Section WithToLowerCase.
Variable toLowerCase : jsstring -> jsstring.

Definition sanitizeText (text : jsstring) : jsstring :=
  match text with
  | [] => []
  | _ => trim (collapseSpaces (replaceNonLetters (stripUrls (toLowerCase text))))
  end.

Definition tokenize (text : jsstring) : list jsstring :=
  let clean := sanitizeText text in
  match clean with
  | [] => []
  | _ =>
      filter (fun w => negb (streq w []) && negb (isStopword w))
             (split space clean)
  end.

(** The object [result] that the loop of [computeMetrics] fills. *)
Record Result := {
  total : nat;
  lengthsOverall : list nat;
  lengthsPos : list nat;
  lengthsNeg : list nat;
  posCount : nat;
  negCount : nat;
  posFreq : JsMap;
  negFreq : JsMap
}.

(** [for (const t of tokens) freq.set(t, (freq.get(t) || 0) + 1)]. *)
Definition countTokens (freq : JsMap) (tokens : list jsstring) : JsMap :=
  fold_left (fun m t => map_set m t (or0 (map_get m t) + 1)) tokens freq.

(** What [computeMetrics] reads of a row. *)
Definition reviewOf (row : Papa.Row) : jsstring :=
  str (nullish (Papa.review row) (nullish (Papa.text row) (Papa.content row))).

Definition sentimentOf (row : Papa.Row) : jsstring :=
  toLowerCase (str (nullish (Papa.sentiment row) (Papa.label row))).

Definition isPositive (sentiment : jsstring) : bool :=
  streq sentiment (lit "positive") || streq sentiment (lit "pos").

Definition isNegative (sentiment : jsstring) : bool :=
  streq sentiment (lit "negative") || streq sentiment (lit "neg").

(** One turn of the loop over the rows. *)
Definition addRow (result : Result) (row : Papa.Row) : Result :=
  let review := reviewOf row in
  let sentiment := sentimentOf row in
  let tokens := tokenize review in
  let length := length tokens in
  let result := {|
    total := total result;
    lengthsOverall := lengthsOverall result ++ [length];
    lengthsPos := lengthsPos result;
    lengthsNeg := lengthsNeg result;
    posCount := posCount result;
    negCount := negCount result;
    posFreq := posFreq result;
    negFreq := negFreq result |} in
  if isPositive sentiment then {|
    total := total result;
    lengthsOverall := lengthsOverall result;
    lengthsPos := lengthsPos result ++ [length];
    lengthsNeg := lengthsNeg result;
    posCount := posCount result + 1;
    negCount := negCount result;
    posFreq := countTokens (posFreq result) tokens;
    negFreq := negFreq result |}
  else if isNegative sentiment then {|
    total := total result;
    lengthsOverall := lengthsOverall result;
    lengthsPos := lengthsPos result;
    lengthsNeg := lengthsNeg result ++ [length];
    posCount := posCount result;
    negCount := negCount result + 1;
    posFreq := posFreq result;
    negFreq := countTokens (negFreq result) tokens |}
  else result.

(** [arr.reduce((a,b)=>a+b,0)]. *)
Definition sum (arr : list nat) : nat := fold_left Nat.add arr 0.

(** [avg]: [arr.length ? sum / arr.length : 0]. *)
Definition avg (arr : list nat) : number :=
  match length arr with
  | 0 => Finite 0
  | _ => div (sum arr) (length arr)
  end.

(** The object [computeMetrics] returns: [result] spread, and the three
    averages. *)
Record Metrics := {
  result : Result;
  avgOverall : number;
  avgPos : number;
  avgNeg : number
}.

Definition computeMetrics (rows : list Papa.Row) : Metrics :=
  let init := {|
    total := length rows;
    lengthsOverall := [];
    lengthsPos := [];
    lengthsNeg := [];
    posCount := 0;
    negCount := 0;
    posFreq := [];
    negFreq := [] |} in
  let result := fold_left addRow rows init in
  {| result := result;
     avgOverall := avg (lengthsOverall result);
     avgPos := avg (lengthsPos result);
     avgNeg := avg (lengthsNeg result) |}.

(** The rows [parseCsvText] passes on to [handleData]: the two columns
    resolved, then the rows without a review or a label dropped. [None] is
    the status message for no usable row. *)
Definition normalizeRow (r : Papa.Row) : Papa.Row := {|
  Papa.review := nullish (Papa.review r) (nullish (Papa.text r) (Papa.content r));
  Papa.text := None;
  Papa.content := None;
  Papa.sentiment := nullish (Papa.sentiment r) (Papa.label r);
  Papa.label := None |}.

Definition usable (r : Papa.Row) : bool :=
  truthy (Papa.review r) && truthy (Papa.sentiment r).

Definition parseCsvText (data : list Papa.Row) : option (list Papa.Row) :=
  match filter usable (map normalizeRow data) with
  | [] => None
  | rows => Some rows
  end.
End WithToLowerCase.

(** [topEntries(map, n)]. *)
Definition topEntries (map : JsMap) (n : Z) : list (jsstring * nat) :=
  slice0 n (sort_desc snd map).

(** The data [renderWordChart] gives to a chart:
    [labels = entries.map(e => e[0])], [values = entries.map(e => e[1])]. *)
Record WordChartData := {
  labels : list jsstring;
  values : list nat
}.

Definition wordChartData (entries : list (jsstring * nat)) : WordChartData :=
  {| labels := map fst entries; values := map snd entries |}.

(** [renderWordCharts], as the data of the positive and of the negative chart;
    [nPos] and [nNeg] are the integers read from the two inputs. *)
Definition renderWordCharts (metrics : Metrics) (nPos nNeg : Z)
    : WordChartData * WordChartData :=
  (wordChartData (topEntries (posFreq (result metrics)) nPos),
   wordChartData (topEntries (negFreq (result metrics)) nNeg)).

End Main.

(** ** The React component (src/unnamed/part_000) *)

Module React.
Import JS.

Record Message := {
  text : jsstring;
  sentiment : jsstring
}.

Record WordStats := {
  word : jsstring;
  positive : nat;
  negative : nat;
  total : nat
}.

Record SentimentStats := {
  positiveCount : nat;
  negativeCount : nat;
  avgLengthPositive : number;
  avgLengthNegative : number;
  topWords : list WordStats
}.

(** The rows [loadData] keeps, as the messages it makes of them. *)
Definition loadData (toLowerCase : jsstring -> jsstring)
    (data : list Papa.Row) : list Message :=
  map (fun row => {| text := toLowerCase (str (Papa.review row));
                     sentiment := toLowerCase (str (Papa.sentiment row)) |})
      (filter (fun row => truthy (Papa.review row) && truthy (Papa.sentiment row))
              data).

(** [text.replace(/[^\w\s]/g, '').split(/\s+/).filter(word => word.length >=
    appliedMinWordLength)]. *)
Definition removeNonWord (s : jsstring) : jsstring :=
  filter (fun c => is_word c || is_space c) s.

Definition words (minWordLength : nat) (text : jsstring) : list jsstring :=
  filter (fun word => minWordLength <=? length word)
         (split_ws (removeNonWord text)).

(** The object [wordFrequency]: its own properties in creation order. It is
    made by [{}], so a property it does not own is looked up in
    [Object.prototype]. *)
Definition WordFrequency := list (jsstring * WordStats).

(** The property names of [Object.prototype]; the value of each is a function
    or, for [__proto__], the prototype itself: all of them truthy. *)
Definition ObjectPrototype : list jsstring := map lit [
    "constructor"; "__defineGetter__"; "__defineSetter__"; "hasOwnProperty";
    "__lookupGetter__"; "__lookupSetter__"; "isPrototypeOf";
    "propertyIsEnumerable"; "toString"; "valueOf"; "__proto__";
    "toLocaleString"
  ].

Definition inherited (w : jsstring) : bool := existsb (streq w) ObjectPrototype.

(** The own property named [w]. *)
Fixpoint own (o : WordFrequency) (w : jsstring) : option WordStats :=
  match o with
  | [] => None
  | (k, v) :: o' => if streq k w then Some v else own o' w
  end.

(** [wordFrequency[w]] is truthy: the object owns [w], whose value is an
    object, or inherits it. *)
Definition defined (o : WordFrequency) (w : jsstring) : bool :=
  match own o w with
  | Some _ => true
  | None => inherited w
  end.

(** A statement [wordFrequency[w].field++], as the change [f] of the object
    that [wordFrequency[w]] is. When [wordFrequency] does not own [w], that
    object is an inherited one, and [wordFrequency] is left as it is. *)
Fixpoint update (o : WordFrequency) (w : jsstring) (f : WordStats -> WordStats)
    : WordFrequency :=
  match o with
  | [] => []
  | (k, v) :: o' => if streq k w then (k, f v) :: o' else (k, v) :: update o' w f
  end.

(** [positive++] or [negative++], by the sentiment of the message. *)
Definition countSentiment (isPositive : bool) (s : WordStats) : WordStats :=
  if isPositive then
    {| word := word s; positive := positive s + 1; negative := negative s;
       total := total s |}
  else
    {| word := word s; positive := positive s; negative := negative s + 1;
       total := total s |}.

(** [total++]. *)
Definition countTotal (s : WordStats) : WordStats :=
  {| word := word s; positive := positive s; negative := negative s;
     total := total s + 1 |}.

(** The body of [words.forEach]: the entry is made when [wordFrequency[word]]
    is not truthy, then the two increments. *)
Definition addWord (isPositive : bool) (o : WordFrequency) (w : jsstring)
    : WordFrequency :=
  let o :=
    if defined o w then o
    else o ++ [(w, {| word := w; positive := 0; negative := 0; total := 0 |})] in
  let o := update o w (countSentiment isPositive) in
  update o w countTotal.

(** The body of [messages.forEach]. *)
Definition addMessage (minWordLength : nat) (o : WordFrequency) (message : Message)
    : WordFrequency :=
  fold_left (addWord (streq (sentiment message) (lit "positive")))
            (words minWordLength (text message)) o.

(** A property name that is an array index: a decimal numeral without a
    leading zero, at most 4294967294. *)
Fixpoint decimal (acc : N) (s : jsstring) : option N :=
  match s with
  | [] => Some acc
  | c :: r => if is_digit c then decimal (acc * 10 + (c - 48))%N r else None
  end.

Definition arrayIndex (w : jsstring) : option N :=
  match w with
  | [] => None
  | c :: r =>
      if (c =? 48)%N && negb (streq r []) then None
      else match decimal 0%N w with
           | Some v => if (v <=? 4294967294)%N then Some v else None
           | None => None
           end
  end.

Definition isIndex (e : jsstring * WordStats) : bool :=
  match arrayIndex (fst e) with Some _ => true | None => false end.

Definition indexOf (e : jsstring * WordStats) : N :=
  match arrayIndex (fst e) with Some v => v | None => 0%N end.

Fixpoint insert_index (e : jsstring * WordStats) (l : WordFrequency) : WordFrequency :=
  match l with
  | [] => [e]
  | y :: ys => if (indexOf e <? indexOf y)%N then e :: l else y :: insert_index e ys
  end.

(** [Object.values(o)]: the own properties whose name is an array index in
    ascending order of the index, then the others in creation order. *)
Definition objectValues (o : WordFrequency) : list WordStats :=
  map snd (fold_right insert_index [] (filter isIndex o)
           ++ filter (fun e => negb (isIndex e)) o).

(** [messages.reduce((sum, msg) => sum + msg.text.length, 0)]. *)
Definition sumLength (messages : list Message) : nat :=
  fold_left (fun sum msg => sum + length (text msg)) messages 0.

(** [messages.length > 0 ? sumLength / messages.length : 0]. *)
Definition avgLength (messages : list Message) : number :=
  if 0 <? length messages then div (sumLength messages) (length messages)
  else Finite 0.

Definition wordFrequency (minWordLength : nat) (messages : list Message)
    : WordFrequency :=
  fold_left (addMessage minWordLength) messages [].

(** [analyzeSentiment], as the value it hands to [setStats];
    [appliedMinWordLength] is the state it reads. *)
Definition analyzeSentiment (appliedMinWordLength : nat) (messages : list Message)
    : SentimentStats :=
  let positiveMessages :=
    filter (fun msg => streq (sentiment msg) (lit "positive")) messages in
  let negativeMessages :=
    filter (fun msg => streq (sentiment msg) (lit "negative")) messages in
  {| positiveCount := length positiveMessages;
     negativeCount := length negativeMessages;
     avgLengthPositive := avgLength positiveMessages;
     avgLengthNegative := avgLength negativeMessages;
     topWords :=
       slice0 20 (sort_desc total
                    (objectValues (wordFrequency appliedMinWordLength messages))) |}.

(** [s.includes(p)]: [p] is found somewhere in [s]. *)
Fixpoint startsWith (p s : jsstring) : bool :=
  match p, s with
  | [], _ => true
  | _ :: _, [] => false
  | a :: p', c :: s' => (a =? c)%N && startsWith p' s'
  end.

Fixpoint includes (s p : jsstring) : bool :=
  startsWith p s
  || match s with
     | [] => false
     | _ :: r => includes r p
     end.

(** The array [filtered] of [applyFilters]: all the data when the word filter
    is blank, else the messages whose text includes the filter in lower
    case. *)
Definition filterMessages (toLowerCase : jsstring -> jsstring)
    (wordFilter : jsstring) (messages : list Message) : list Message :=
  if streq (trim wordFilter) [] then messages
  else filter (fun msg => includes (text msg) (toLowerCase wordFilter)) messages.

(** The state of the component. *)
Record State := {
  data : list Message;
  filteredData : list Message;
  stats : option SentimentStats;
  loading : bool;
  wordFilter : jsstring;
  minWordLength : nat;
  appliedWordFilter : jsstring;
  appliedMinWordLength : nat
}.

(** The state the component is mounted with. *)
Definition initial : State := {|
  data := [];
  filteredData := [];
  stats := None;
  loading := true;
  wordFilter := [];
  minWordLength := 3;
  appliedWordFilter := [];
  appliedMinWordLength := 3 |}.

(** [applyFilters]: [setFilteredData(filtered)], and [analyzeSentiment] of
    [filtered], which ends in [setStats]. *)
Definition applyFilters (toLowerCase : jsstring -> jsstring) (st : State) : State :=
  let filtered := filterMessages toLowerCase (appliedWordFilter st) (data st) in
  {| data := data st;
     filteredData := filtered;
     stats := Some (analyzeSentiment (appliedMinWordLength st) filtered);
     loading := loading st;
     wordFilter := wordFilter st;
     minWordLength := minWordLength st;
     appliedWordFilter := appliedWordFilter st;
     appliedMinWordLength := appliedMinWordLength st |}.

(** The effect on [data], [appliedWordFilter] and [appliedMinWordLength]:
    [if (data.length > 0) applyFilters()], as the state it sets; [None] when
    it sets none. *)
Definition effect (toLowerCase : jsstring -> jsstring) (st : State) : option State :=
  if 0 <? length (data st) then Some (applyFilters toLowerCase st) else None.

(** What happens to the component. *)
Inductive Event :=
  | Loaded (parsedData : list Message)
  | LoadFailed
  | WordFilterChange (value : jsstring)
  | MinWordLengthChange (value : nat)
  | ApplyFilters
  | ClearFilters.

(** The state after the handler of an event, before the effects run: the
    updates of a handler are batched, so this is the state of the render that
    follows it. *)
Definition handle (st : State) (ev : Event) : State :=
  match ev with
  | Loaded parsedData =>
      {| data := parsedData; filteredData := filteredData st; stats := stats st;
         loading := false; wordFilter := wordFilter st;
         minWordLength := minWordLength st;
         appliedWordFilter := appliedWordFilter st;
         appliedMinWordLength := appliedMinWordLength st |}
  | LoadFailed =>
      {| data := data st; filteredData := filteredData st; stats := stats st;
         loading := false; wordFilter := wordFilter st;
         minWordLength := minWordLength st;
         appliedWordFilter := appliedWordFilter st;
         appliedMinWordLength := appliedMinWordLength st |}
  | WordFilterChange value =>
      {| data := data st; filteredData := filteredData st; stats := stats st;
         loading := loading st; wordFilter := value;
         minWordLength := minWordLength st;
         appliedWordFilter := appliedWordFilter st;
         appliedMinWordLength := appliedMinWordLength st |}
  | MinWordLengthChange value =>
      {| data := data st; filteredData := filteredData st; stats := stats st;
         loading := loading st; wordFilter := wordFilter st;
         minWordLength := value;
         appliedWordFilter := appliedWordFilter st;
         appliedMinWordLength := appliedMinWordLength st |}
  | ApplyFilters =>
      {| data := data st; filteredData := filteredData st; stats := stats st;
         loading := loading st; wordFilter := wordFilter st;
         minWordLength := minWordLength st;
         appliedWordFilter := wordFilter st;
         appliedMinWordLength := minWordLength st |}
  | ClearFilters =>
      {| data := data st; filteredData := filteredData st; stats := stats st;
         loading := loading st; wordFilter := [];
         minWordLength := 3;
         appliedWordFilter := [];
         appliedMinWordLength := 3 |}
  end.

(** A dependency of the effect has changed: [setData] is given a new array
    each time; the two applied filters are compared by value. *)
Definition dependenciesChanged (st st' : State) (ev : Event) : bool :=
  match ev with
  | Loaded _ => true
  | _ =>
      negb (streq (appliedWordFilter st) (appliedWordFilter st'))
      || negb (appliedMinWordLength st =? appliedMinWordLength st')
  end.

(** The states the component renders in turn for an event. The first is the
    state the handler leaves, in which [filteredData] and [stats] are as they
    were: the effect runs only once that render is committed, and only when
    one of its dependencies has changed. When the effect sets a state, a
    second render follows with it. *)
Definition renders (toLowerCase : jsstring -> jsstring) (st : State) (ev : Event)
    : list State :=
  let st' := handle st ev in
  if dependenciesChanged st st' ev then
    match effect toLowerCase st' with
    | Some st'' => [st'; st'']
    | None => [st']
    end
  else [st'].

(** The state an event leaves the component in: that of its last render. *)
Definition settle (toLowerCase : jsstring -> jsstring) (st : State) (ev : Event)
    : State :=
  last (renders toLowerCase st ev) st.

(** [hasActiveFilters]. *)
Definition hasActiveFilters (st : State) : bool :=
  negb (streq (appliedWordFilter st) []) || negb (appliedMinWordLength st =? 3).

(** What the component returns: the loading line, the error line, or the
    dashboard made from the statistics. *)
Inductive View :=
  | LoadingView
  | ErrorView
  | Dashboard (stats : SentimentStats).

Definition view (st : State) : View :=
  if loading st then LoadingView
  else match stats st with
       | None => ErrorView
       | Some stats => Dashboard stats
       end.

End React.

(** ** The log-odds score of the association scorer *)

Module LogOdds.
#[local] Open Scope R_scope.

(** Modelled from the spec: the score of a term, computed by the offline
    script src/generate_eda.py, which is not among the sources. Section 4.3:
    [a = freqPos[t] + alpha], [b = (totalPosTokens - freqPos[t]) + alpha],
    [c = freqNeg[t] + alpha], [d = (totalNegTokens - freqNeg[t]) + alpha] and
    [logOdds(t) = ln(a/b) - ln(c/d)]. Counts are natural numbers, the score
    is a real number. *)
Definition logOdds (alpha : R) (freqPos totalPosTokens freqNeg totalNegTokens : nat) : R :=
  let a := INR freqPos + alpha in
  let b := (INR totalPosTokens - INR freqPos) + alpha in
  let c := INR freqNeg + alpha in
  let d := (INR totalNegTokens - INR freqNeg) + alpha in
  ln (a / b) - ln (c / d).

End LogOdds.

(** ** The vocabulary of the statements *)

Module Props.
Import JS.

(** The string is made of the letters [a] to [z] only. *)
Definition alphabetic (w : jsstring) : Prop := Forall (fun c => is_lower c = true) w.

(** The string is made of units of [\w] only. *)
Definition wordlike (w : jsstring) : Prop := Forall (fun c => is_word c = true) w.

(** The sum of the values of a frequency table. *)
Definition sumValues (m : JsMap) : nat := fold_right (fun e acc => snd e + acc) 0 m.

(** The keys of a table, in the order of its entries. *)
Definition keys (m : JsMap) : list jsstring := map fst m.

(** The first column that is present, out of a list of columns. *)
Fixpoint firstPresent (columns : list (option jsstring)) : option jsstring :=
  match columns with
  | [] => None
  | Some s :: _ => Some s
  | None :: rest => firstPresent rest
  end.

(** The distinct elements of a list of strings, each at its first
    occurrence. *)
Fixpoint distinct (l : list jsstring) : list jsstring :=
  match l with
  | [] => []
  | x :: r => x :: filter (fun y => negb (streq y x)) (distinct r)
  end.

(** The number of distinct keys across the positive and the negative
    table. *)
Definition vocabularySize (pos neg : JsMap) : nat :=
  length (distinct (keys pos ++ keys neg)).

(** The pieces of a string between its units that do not satisfy [p]; two
    such units in a row, or one at either end, leave an empty piece. *)
Fixpoint pieces (p : codeunit -> bool) (s : jsstring) : list jsstring :=
  match s with
  | [] => [[]]
  | c :: r =>
      if p c then
        match pieces p r with
        | [] => [[c]]
        | w :: ws => (c :: w) :: ws
        end
      else [] :: pieces p r
  end.

(** The maximal runs of units that satisfy [p], in order: the pieces that are
    not empty. *)
Definition runs (p : codeunit -> bool) (s : jsstring) : list jsstring :=
  filter (fun w => negb (streq w [])) (pieces p s).

(** The maximal runs of letters [a-z] of a string. *)
Definition letterRuns (s : jsstring) : list jsstring := runs is_lower s.

(** A Number that lies between two whole numbers. *)
Definition between (lo hi : nat) (x : number) : Prop :=
  match x with
  | Finite q => (inject_Z (Z.of_nat lo) <= q /\ q <= inject_Z (Z.of_nat hi))%Q
  | _ => False
  end.

(** The string is not empty and holds no white space. *)
Definition solid (w : jsstring) : Prop :=
  w <> [] /\ Forall (fun c => is_space c = false) w.

(** The string is one of a list. *)
Definition mem (k : jsstring) (l : list jsstring) : bool := existsb (streq k) l.

(** A list of keys with one more key, put last when it is new. *)
Definition addKey (ks : list jsstring) (k : jsstring) : list jsstring :=
  if mem k ks then ks else ks ++ [k].

(** The tokens of a row's review, and their number. *)
Definition tokensOf (toLowerCase : jsstring -> jsstring) (row : Papa.Row) : list jsstring :=
  Main.tokenize toLowerCase (Main.reviewOf row).

Definition tokenCount (toLowerCase : jsstring -> jsstring) (row : Papa.Row) : nat :=
  length (tokensOf toLowerCase row).

(** The rows [computeMetrics] takes for positive, and for negative. *)
Definition positiveRow (toLowerCase : jsstring -> jsstring) (row : Papa.Row) : bool :=
  Main.isPositive (Main.sentimentOf toLowerCase row).

Definition negativeRow (toLowerCase : jsstring -> jsstring) (row : Papa.Row) : bool :=
  negb (Main.isPositive (Main.sentimentOf toLowerCase row))
  && Main.isNegative (Main.sentimentOf toLowerCase row).

(** All the tokens of a list of rows, in order. *)
Definition allTokens (toLowerCase : jsstring -> jsstring) (rows : list Papa.Row)
    : list jsstring :=
  concat (map (tokensOf toLowerCase) rows).

(** [result] is the first [K] of [entries] put in descending order of [key],
    entries of equal key staying in the order they have in [entries]. *)
Definition topOf {A} (key : A -> nat) (K : nat) (entries result : list A) : Prop :=
  exists sorted,
    Permutation sorted entries /\
    StronglySorted (fun a b => key b <= key a) sorted /\
    (forall c, filter (fun e => key e =? c) sorted = filter (fun e => key e =? c) entries) /\
    result = firstn K sorted.

(** [chart] shows at most [K] of the strings counted in [ts]: no label twice,
    each label a string of [ts] with the number of its occurrences in [ts] as
    its value, the values in descending order. *)
Definition chartOf (ts : list jsstring) (K : nat) (chart : Main.WordChartData) : Prop :=
  length (Main.labels chart) = length (Main.values chart)
  /\ length (Main.labels chart) <= K
  /\ NoDup (Main.labels chart)
  /\ StronglySorted (fun a b => b <= a) (Main.values chart)
  /\ forall l v, In (l, v) (combine (Main.labels chart) (Main.values chart)) ->
       In l ts /\ v = count_occ jsstring_eq_dec ts l /\ 1 <= v.

(** The words of a message that [analyzeSentiment] counts. *)
Definition wordsOf (minWordLength : nat) (msg : React.Message) : list jsstring :=
  React.words minWordLength (React.text msg).

(** The messages that the word loop of [analyzeSentiment] takes for
    positive; it takes all the others for negative. *)
Definition isPositiveMessage (msg : React.Message) : bool :=
  streq (React.sentiment msg) (lit "positive").

(** The number of times a word is among the counted words of a list of
    messages. *)
Definition occurrences (minWordLength : nat) (messages : list React.Message)
    (w : jsstring) : nat :=
  count_occ jsstring_eq_dec (concat (map (wordsOf minWordLength) messages)) w.

(** The entry of a word met [P] times in positive messages and [N] times in
    the others. *)
Definition entry (w : jsstring) (P N : nat) : React.WordStats :=
  {| React.word := w; React.positive := P; React.negative := N;
     React.total := P + N |}.

(** An entry after [P] more positive and [N] more negative occurrences. *)
Definition raise (s : React.WordStats) (P N : nat) : React.WordStats :=
  {| React.word := React.word s; React.positive := React.positive s + P;
     React.negative := React.negative s + N;
     React.total := React.total s + (P + N) |}.

(** When there are data, the filtered data and the statistics of the state
    are those that the applied filters give. *)
Definition shows_applied (toLowerCase : jsstring -> jsstring) (st : React.State) : Prop :=
  React.data st <> [] ->
  React.filteredData st
  = React.filterMessages toLowerCase (React.appliedWordFilter st) (React.data st)
  /\ React.stats st
     = Some (React.analyzeSentiment (React.appliedMinWordLength st) (React.filteredData st)).

(** A load has ended, well or not. *)
Definition endsLoad (ev : React.Event) : bool :=
  match ev with
  | React.Loaded _ | React.LoadFailed => true
  | _ => false
  end.

(** A load has ended with at least one message. *)
Definition bringsData (ev : React.Event) : bool :=
  match ev with
  | React.Loaded (_ :: _) => true
  | _ => false
  end.

(** The sum of the [total] fields of the object [wordFrequency]. *)
Definition sumTotals (o : React.WordFrequency) : nat :=
  fold_right (fun e acc => React.total (snd e) + acc) 0 o.

(** A Papa row with a review column and a sentiment column only. *)
Definition row (review sentiment : String.string) : Papa.Row := {|
  Papa.review := Some (lit review);
  Papa.text := None;
  Papa.content := None;
  Papa.sentiment := Some (lit sentiment);
  Papa.label := None |}.

(** A Papa row with a text column and a label column only. *)
Definition aliasRow (text label : String.string) : Papa.Row := {|
  Papa.review := None;
  Papa.text := Some (lit text);
  Papa.content := None;
  Papa.sentiment := None;
  Papa.label := Some (lit label) |}.

Definition message (text sentiment : String.string) : React.Message := {|
  React.text := lit text;
  React.sentiment := lit sentiment |}.

End Props.

Import JS Props.

(** ** Strings *)

Lemma streq_true (a b : jsstring) : streq a b = true <-> a = b.
Proof.
  unfold streq. destruct (jsstring_eq_dec a b); split; congruence.
Qed.

Lemma streq_false (a b : jsstring) : streq a b = false <-> a <> b.
Proof.
  unfold streq. destruct (jsstring_eq_dec a b); split; congruence.
Qed.

Lemma streq_refl (a : jsstring) : streq a a = true.
Proof. now apply streq_true. Qed.

Lemma streq_sym (a b : jsstring) : streq a b = streq b a.
Proof.
  destruct (streq b a) eqn:E.
  - apply streq_true in E. subst. apply streq_refl.
  - apply streq_false in E. apply streq_false. congruence.
Qed.

Lemma space_is_space : is_space space = true.
Proof. reflexivity. Qed.

(** Settles the comparisons of a character class one at a time, from bounds
    on the unit that are in the context. *)
Ltac decide_class :=
  repeat match goal with
         | |- context [(?a <=? ?b)%N] => destruct (N.leb_spec a b); try lia
         | |- context [(?a =? ?b)%N] => destruct (N.eqb_spec a b); try lia
         end;
  try reflexivity.

Lemma is_lower_bounds (c : codeunit) : is_lower c = true <-> (97 <= c <= 122)%N.
Proof.
  unfold is_lower. rewrite andb_true_iff, !N.leb_le. reflexivity.
Qed.

Lemma is_word_cases (c : codeunit) :
  is_word c = true <->
  ((97 <= c <= 122) \/ (65 <= c <= 90) \/ (48 <= c <= 57) \/ c = 95)%N.
Proof.
  unfold is_word, is_lower, is_upper, is_digit.
  rewrite !orb_true_iff, !andb_true_iff, !N.leb_le, N.eqb_eq. tauto.
Qed.

Lemma lower_not_space (c : codeunit) : is_lower c = true -> is_space c = false.
Proof.
  intros H. apply is_lower_bounds in H. unfold is_space. decide_class.
Qed.

Lemma word_not_space (c : codeunit) : is_word c = true -> is_space c = false.
Proof.
  intros H. apply is_word_cases in H. unfold is_space.
  destruct H as [H | [H | [H | H]]]; decide_class.
Qed.

Lemma lower_is_word (c : codeunit) : is_lower c = true -> is_word c = true.
Proof.
  intros H. unfold is_word. rewrite H. reflexivity.
Qed.

(** ** The pieces of a split *)

Lemma split_not_nil (sep : codeunit) (s : jsstring) : split sep s <> [].
Proof.
  destruct s as [|c r]; simpl; [discriminate|].
  destruct (c =? sep)%N; [discriminate|].
  destruct (split sep r); discriminate.
Qed.

Lemma split_pieces (P : codeunit -> Prop) (sep : codeunit) (s w : jsstring) :
  Forall P s -> In w (split sep s) -> Forall (fun c => P c /\ c <> sep) w.
Proof.
  intros HP. revert w. induction HP as [|c r Hc Hr IH]; intros w Hw; simpl in Hw.
  - destruct Hw as [<-|[]]. constructor.
  - destruct (N.eqb_spec c sep) as [->|Hne].
    + destruct Hw as [<-|Hw]; [constructor | now apply IH].
    + destruct (split sep r) as [|w0 ws] eqn:E.
      * destruct Hw as [<-|[]]. repeat constructor; assumption.
      * destruct Hw as [<-|Hw].
        -- constructor; [split; assumption|]. apply IH. now left.
        -- apply IH. now right.
Qed.

Lemma split_ws_pieces (P : codeunit -> Prop) (s w : jsstring) (in_run : bool) :
  Forall P s -> In w (split_ws_from in_run s) ->
  Forall (fun c => P c /\ is_space c = false) w.
Proof.
  intros HP. revert w in_run.
  induction HP as [|c r Hc Hr IH]; intros w in_run Hw; simpl in Hw.
  - destruct Hw as [<-|[]]. constructor.
  - destruct (is_space c) eqn:Ec.
    + destruct in_run.
      * now apply (IH w true).
      * destruct Hw as [<-|Hw]; [constructor | now apply (IH w true)].
    + destruct (split_ws_from false r) as [|w0 ws] eqn:E.
      * destruct Hw as [<-|[]]. repeat constructor; assumption.
      * destruct Hw as [<-|Hw].
        -- constructor; [split; assumption|]. apply (IH w0 false). rewrite E. now left.
        -- apply (IH w false). rewrite E. now right.
Qed.

(** ** The steps of [sanitizeText] *)

Lemma replaceNonLetters_class (s : jsstring) :
  Forall (fun c => is_lower c = true \/ is_space c = true) (Main.replaceNonLetters s).
Proof.
  unfold Main.replaceNonLetters. apply Forall_map, Forall_forall. intros c _.
  destruct (is_lower c) eqn:El; simpl; [now left|].
  destruct (is_space c) eqn:Es; simpl; right; [assumption | reflexivity].
Qed.

Lemma collapse_class (in_run : bool) (s : jsstring) :
  Forall (fun c => is_lower c = true \/ is_space c = true) s ->
  Forall (fun c => is_lower c = true \/ c = space) (Main.collapse_from in_run s).
Proof.
  intros H. revert in_run. induction H as [|c r Hc Hr IH]; intros in_run; simpl.
  - constructor.
  - destruct (is_space c) eqn:Es.
    + destruct in_run; [apply IH|]. constructor; [now right | apply IH].
    + constructor; [|apply IH]. destruct Hc as [Hc|Hc]; [now left | congruence].
Qed.

Lemma trimStart_Forall (P : codeunit -> Prop) (s : jsstring) :
  Forall P s -> Forall P (trimStart s).
Proof.
  induction 1 as [|c r Hc Hr IH]; simpl; [constructor|].
  destruct (is_space c); [assumption | now constructor].
Qed.

Lemma trim_Forall (P : codeunit -> Prop) (s : jsstring) :
  Forall P s -> Forall P (trim s).
Proof.
  intros H. unfold trim.
  apply Forall_rev, trimStart_Forall, Forall_rev, trimStart_Forall, H.
Qed.

Lemma sanitizeText_class (toLowerCase : jsstring -> jsstring) (text : jsstring) :
  Forall (fun c => is_lower c = true \/ c = space) (Main.sanitizeText toLowerCase text).
Proof.
  unfold Main.sanitizeText. destruct text; [constructor|].
  apply trim_Forall, collapse_class, replaceNonLetters_class.
Qed.

Lemma isStopword_In (w : jsstring) :
  Main.isStopword w = true <-> In w Main.ENGLISH_STOPWORDS.
Proof.
  unfold Main.isStopword. rewrite existsb_exists. split.
  - intros [x [Hx E]]. apply streq_true in E. now subst.
  - intros H. exists w. split; [assumption | apply streq_refl].
Qed.

(** What [tokenize] lets through. *)
Lemma tokenize_In (toLowerCase : jsstring -> jsstring) (text w : jsstring) :
  In w (Main.tokenize toLowerCase text) ->
  w <> [] /\ alphabetic w /\ Main.isStopword w = false.
Proof.
  unfold Main.tokenize. intros H.
  pose proof (sanitizeText_class toLowerCase text) as Hc.
  destruct (Main.sanitizeText toLowerCase text) as [|c0 r0] eqn:E; [destruct H|].
  apply filter_In in H as [Hin Hf].
  apply andb_prop in Hf as [Hne Hst].
  apply negb_true_iff in Hne. apply negb_true_iff in Hst.
  split; [now apply streq_false in Hne|]. split; [|assumption].
  apply (split_pieces _ _ _ _ Hc) in Hin.
  unfold alphabetic. eapply Forall_impl; [|exact Hin].
  intros c [[Hl|Hs] Hn]; [assumption | contradiction].
Qed.

(** ** Tokens joined with single spaces *)

Lemma filter_all {A} (f : A -> bool) (l : list A) :
  (forall x, In x l -> f x = true) -> filter f l = l.
Proof.
  induction l as [|x l IH]; intros H; simpl; [reflexivity|].
  rewrite (H x (or_introl eq_refl)), IH; [reflexivity|].
  intros y Hy. apply H. now right.
Qed.

Lemma not_space_neq_space (c : codeunit) : is_space c = false -> (c =? space)%N = false.
Proof.
  intros H. apply N.eqb_neq. intros ->. discriminate.
Qed.

Lemma split_solid_alone (w : jsstring) :
  Forall (fun c => is_space c = false) w -> split space w = [w].
Proof.
  induction 1 as [|c r Hc Hr IH]; simpl; [reflexivity|].
  rewrite (not_space_neq_space c Hc), IH. reflexivity.
Qed.

Lemma split_solid_first (w r : jsstring) :
  Forall (fun c => is_space c = false) w ->
  split space (w ++ space :: r) = w :: split space r.
Proof.
  induction 1 as [|c w' Hc Hw IH]; simpl; [reflexivity|].
  rewrite (not_space_neq_space c Hc), IH. reflexivity.
Qed.

Lemma split_ws_solid_alone (w : jsstring) (in_run : bool) :
  Forall (fun c => is_space c = false) w -> w <> [] ->
  split_ws_from in_run w = [w].
Proof.
  intros H. revert in_run. induction H as [|c r Hc Hr IH]; intros in_run Hne; [congruence|].
  simpl. rewrite Hc. destruct r as [|c' r']; [reflexivity|].
  rewrite (IH false); [reflexivity | discriminate].
Qed.

Lemma split_ws_run_irrelevant (c : codeunit) (r : jsstring) :
  is_space c = false -> split_ws_from true (c :: r) = split_ws_from false (c :: r).
Proof.
  intros H. simpl. rewrite H. reflexivity.
Qed.

Lemma split_ws_solid_first (w : jsstring) (c : codeunit) (r : jsstring) :
  Forall (fun c => is_space c = false) w -> is_space c = false ->
  split_ws_from false (w ++ space :: c :: r) = w :: split_ws_from false (c :: r).
Proof.
  intros Hw Hc. induction Hw as [|d w' Hd Hw IH].
  - change (split_ws_from false ([] ++ space :: c :: r))
      with ([] :: split_ws_from true (c :: r)).
    now rewrite split_ws_run_irrelevant.
  - change (split_ws_from false ((d :: w') ++ space :: c :: r))
      with (if is_space d
            then [] :: split_ws_from true (w' ++ space :: c :: r)
            else match split_ws_from false (w' ++ space :: c :: r) with
                 | [] => [[d]]
                 | w0 :: ws => (d :: w0) :: ws
                 end).
    rewrite Hd, IH. reflexivity.
Qed.

Lemma collapse_solid_first (w r : jsstring) (in_run : bool) :
  Forall (fun c => is_space c = false) w -> w <> [] ->
  Main.collapse_from in_run (w ++ r) = w ++ Main.collapse_from false r.
Proof.
  intros H. revert in_run. induction H as [|c w' Hc Hw IH]; intros in_run Hne; [congruence|].
  simpl. rewrite Hc. f_equal.
  destruct w' as [|c' w'']; [reflexivity|].
  apply IH. discriminate.
Qed.

Lemma collapse_run_irrelevant (c : codeunit) (r : jsstring) :
  is_space c = false ->
  Main.collapse_from true (c :: r) = Main.collapse_from false (c :: r).
Proof.
  intros H. simpl. rewrite H. reflexivity.
Qed.

Lemma collapse_space (r : jsstring) :
  Main.collapse_from false (space :: r) = space :: Main.collapse_from true r.
Proof. reflexivity. Qed.

Lemma join_cons2 (sep : codeunit) (w w' : jsstring) (ws : list jsstring) :
  join sep (w :: w' :: ws) = w ++ sep :: join sep (w' :: ws).
Proof. reflexivity. Qed.

(** A join of solid strings starts and ends with a unit that is not white
    space. *)
Lemma join_solid_head (ts : list jsstring) :
  ts <> [] -> Forall solid ts ->
  exists c r, join space ts = c :: r /\ is_space c = false.
Proof.
  intros Hne H. destruct H as [|w ws [Hw Hs] Hws]; [congruence|].
  destruct w as [|c w']; [congruence|]. inversion Hs; subst.
  destruct ws as [|w1 ws'].
  - exists c, w'. split; [reflexivity | assumption].
  - exists c, (w' ++ space :: join space (w1 :: ws')). split; [reflexivity | assumption].
Qed.

Lemma join_solid_last (ts : list jsstring) :
  ts <> [] -> Forall solid ts ->
  exists r c, join space ts = r ++ [c] /\ is_space c = false.
Proof.
  intros Hne H. induction H as [|w ws [Hw Hs] Hws IH]; [congruence|].
  destruct ws as [|w1 ws'].
  - destruct (exists_last Hw) as [r [c E]]. exists r, c. split; [exact E|].
    rewrite E in Hs. apply Forall_app in Hs as [_ Hs]. now inversion Hs.
  - destruct IH as [r [c [E Hc]]]; [discriminate|].
    exists (w ++ space :: r), c. split; [|assumption].
    rewrite join_cons2, E, <- app_assoc. reflexivity.
Qed.

Lemma trimStart_head (c : codeunit) (r : jsstring) :
  is_space c = false -> trimStart (c :: r) = c :: r.
Proof.
  intros H. simpl. now rewrite H.
Qed.

Lemma trim_join_solid (ts : list jsstring) :
  Forall solid ts -> trim (join space ts) = join space ts.
Proof.
  intros H. destruct ts as [|w ws]; [reflexivity|].
  destruct (join_solid_head (w :: ws)) as [c [r [E Hc]]]; [discriminate | assumption|].
  destruct (join_solid_last (w :: ws)) as [r' [c' [E' Hc']]]; [discriminate | assumption|].
  assert (H1 : trimStart (join space (w :: ws)) = join space (w :: ws))
    by (rewrite E; now apply trimStart_head).
  assert (H2 : trimStart (rev (join space (w :: ws))) = rev (join space (w :: ws)))
    by (rewrite E', rev_app_distr; now apply trimStart_head).
  unfold trim. rewrite H1, H2, rev_involutive. reflexivity.
Qed.

Lemma collapse_join_solid (ts : list jsstring) :
  Forall solid ts -> Main.collapseSpaces (join space ts) = join space ts.
Proof.
  unfold Main.collapseSpaces.
  induction 1 as [|w ws [Hw Hs] Hws IH]; [reflexivity|].
  destruct ws as [|w1 ws'].
  - simpl join. rewrite <- (app_nil_r w) at 1.
    rewrite (collapse_solid_first w [] false Hs Hw). simpl. apply app_nil_r.
  - rewrite join_cons2, (collapse_solid_first w _ false Hs Hw). f_equal.
    destruct (join_solid_head (w1 :: ws')) as [c [r [E Hc]]]; [discriminate | assumption|].
    rewrite collapse_space. f_equal.
    rewrite E, (collapse_run_irrelevant c r Hc), <- E. exact IH.
Qed.

Lemma split_join_solid (ts : list jsstring) :
  ts <> [] -> Forall solid ts -> split space (join space ts) = ts.
Proof.
  intros Hne H. induction H as [|w ws [Hw Hs] Hws IH]; [congruence|].
  destruct ws as [|w1 ws'].
  - apply split_solid_alone, Hs.
  - rewrite join_cons2, (split_solid_first w _ Hs), IH; [reflexivity | discriminate].
Qed.

Lemma split_ws_join_solid (ts : list jsstring) :
  ts <> [] -> Forall solid ts -> split_ws (join space ts) = ts.
Proof.
  unfold split_ws. intros Hne H. induction H as [|w ws [Hw Hs] Hws IH]; [congruence|].
  destruct ws as [|w1 ws'].
  - now apply split_ws_solid_alone.
  - destruct (join_solid_head (w1 :: ws')) as [c [r [E Hc]]]; [discriminate | assumption|].
    rewrite join_cons2, E, (split_ws_solid_first w c r Hs Hc), <- E, IH;
      [reflexivity | discriminate].
Qed.

Lemma join_class (P : codeunit -> Prop) (ts : list jsstring) :
  P space -> Forall (Forall P) ts -> Forall P (join space ts).
Proof.
  intros Hsp H. induction H as [|w ws Hw Hws IH]; [constructor|].
  destruct ws as [|w1 ws']; [exact Hw|].
  rewrite join_cons2. apply Forall_app. split; [exact Hw|].
  constructor; assumption.
Qed.

(** ** A text of letters and single spaces goes through [sanitizeText]
       unchanged *)

Lemma after_prefix_app (p s r : jsstring) :
  Main.after_prefix p s = Some r -> s = p ++ r.
Proof.
  revert s. induction p as [|a p IH]; intros s H; simpl in H.
  - now inversion H.
  - destruct s as [|c s']; [discriminate|].
    destruct (N.eqb_spec a c) as [->|]; [|discriminate].
    simpl. f_equal. now apply IH.
Qed.

(** A match of the URL pattern holds a colon. *)
Lemma url_at_colon (s : jsstring) : Main.url_at s = true -> In 58%N s.
Proof.
  unfold Main.url_at. intros H.
  destruct (Main.after_prefix (lit "https://") s) as [r|] eqn:E1.
  - apply after_prefix_app in E1. subst s. apply in_or_app. left.
    vm_compute. tauto.
  - destruct (Main.after_prefix (lit "http://") s) as [r|] eqn:E2; [|discriminate].
    apply after_prefix_app in E2. subst s. apply in_or_app. left.
    vm_compute. tauto.
Qed.

Lemma stripUrls_no_colon (s : jsstring) :
  ~ In 58%N s -> Main.stripUrls s = s.
Proof.
  unfold Main.stripUrls. induction s as [|c r IH]; intros H; [reflexivity|].
  simpl Main.stripUrls_from.
  destruct (Main.url_at (c :: r)) eqn:E.
  - apply url_at_colon in E. contradiction.
  - f_equal. apply IH. intros Hin. apply H. now right.
Qed.

Lemma replaceNonLetters_id (s : jsstring) :
  Forall (fun c => is_lower c = true \/ c = space) s -> Main.replaceNonLetters s = s.
Proof.
  unfold Main.replaceNonLetters.
  induction 1 as [|c r Hc Hr IH]; simpl; [reflexivity|].
  rewrite IH. destruct Hc as [Hc| ->]; [rewrite Hc|]; reflexivity.
Qed.

Lemma lower_or_space_ascii (c : codeunit) :
  is_lower c = true \/ c = space -> (c < 128)%N /\ asciiLower c = c /\ c <> 58%N.
Proof.
  intros [H| ->]; [|repeat split; try reflexivity; discriminate].
  apply is_lower_bounds in H. unfold asciiLower, is_upper.
  repeat split; [lia | decide_class | lia].
Qed.

Lemma toLowerCase_letters (toLowerCase : jsstring -> jsstring) (s : jsstring) :
  lowercases_ascii toLowerCase ->
  Forall (fun c => is_lower c = true \/ c = space) s -> toLowerCase s = s.
Proof.
  intros HL H. rewrite HL.
  - induction H as [|c r Hc Hr IH]; simpl; [reflexivity|].
    rewrite IH. f_equal. now apply lower_or_space_ascii.
  - eapply Forall_impl; [|exact H]. intros c Hc. now apply lower_or_space_ascii.
Qed.

Lemma alphabetic_solid (w : jsstring) : w <> [] -> alphabetic w -> solid w.
Proof.
  intros Hne H. split; [assumption|].
  eapply Forall_impl; [|exact H]. apply lower_not_space.
Qed.

Lemma sanitizeText_nonempty (toLowerCase : jsstring -> jsstring) (text : jsstring) :
  text <> [] ->
  Main.sanitizeText toLowerCase text =
  trim (Main.collapseSpaces (Main.replaceNonLetters (Main.stripUrls (toLowerCase text)))).
Proof.
  destruct text; [congruence | reflexivity].
Qed.

Lemma tokenize_nonempty (toLowerCase : jsstring -> jsstring) (text : jsstring) :
  Main.sanitizeText toLowerCase text <> [] ->
  Main.tokenize toLowerCase text =
  filter (fun w => negb (streq w []) && negb (Main.isStopword w))
         (split space (Main.sanitizeText toLowerCase text)).
Proof.
  unfold Main.tokenize.
  destruct (Main.sanitizeText toLowerCase text); [congruence | reflexivity].
Qed.

(** The tokens of a join of tokens are those tokens. *)
Lemma tokenize_join (toLowerCase : jsstring -> jsstring) (ts : list jsstring) :
  lowercases_ascii toLowerCase ->
  Forall (fun w => w <> [] /\ alphabetic w /\ Main.isStopword w = false) ts ->
  Main.tokenize toLowerCase (join space ts) = ts.
Proof.
  intros HL H.
  destruct ts as [|w ws]; [reflexivity|].
  assert (Hsolid : Forall solid (w :: ws)).
  { eapply Forall_impl; [|exact H]. intros x [Hx [Ha _]]. now apply alphabetic_solid. }
  assert (Hclass : Forall (fun c => is_lower c = true \/ c = space) (join space (w :: ws))).
  { apply join_class; [now right|].
    eapply Forall_impl; [|exact H]. intros x [_ [Ha _]].
    eapply Forall_impl; [|exact Ha]. intros c Hc. now left. }
  destruct (join_solid_head (w :: ws)) as [c [r [E Hc]]]; [discriminate | assumption|].
  assert (Hclean : Main.sanitizeText toLowerCase (join space (w :: ws)) = join space (w :: ws)).
  { rewrite sanitizeText_nonempty by (rewrite E; discriminate).
    rewrite (toLowerCase_letters _ _ HL Hclass).
    rewrite stripUrls_no_colon.
    - rewrite (replaceNonLetters_id _ Hclass), (collapse_join_solid _ Hsolid).
      apply trim_join_solid, Hsolid.
    - intros Hin. rewrite Forall_forall in Hclass.
      apply Hclass, lower_or_space_ascii in Hin. now destruct Hin as [_ [_ Hin]]. }
  rewrite tokenize_nonempty by (rewrite Hclean, E; discriminate).
  rewrite Hclean, split_join_solid; [|discriminate | assumption].
  apply filter_all. intros x Hx. rewrite Forall_forall in H.
  destruct (H x Hx) as [Hne [_ Hst]]. rewrite Hst.
  apply streq_false in Hne. rewrite Hne. reflexivity.
Qed.

(** The words of a join of words are those words. *)
Lemma words_join (minWordLength : nat) (ts : list jsstring) :
  1 <= minWordLength ->
  Forall (fun w => wordlike w /\ minWordLength <= length w) ts ->
  React.words minWordLength (join space ts) = ts.
Proof.
  intros Hmin H. unfold React.words.
  destruct ts as [|w ws].
  - simpl. destruct minWordLength; [lia | reflexivity].
  - assert (Hsolid : Forall solid (w :: ws)).
    { eapply Forall_impl; [|exact H]. intros x [Hx Hl]. split.
      - destruct x; [simpl in Hl; lia | discriminate].
      - eapply Forall_impl; [|exact Hx]. apply word_not_space. }
    assert (Hkeep : React.removeNonWord (join space (w :: ws)) = join space (w :: ws)).
    { apply filter_all. intros c Hc.
      assert (Hcl : Forall (fun c => is_word c = true \/ c = space) (join space (w :: ws))).
      { apply join_class; [now right|].
        eapply Forall_impl; [|exact H]. intros x [Hx _].
        eapply Forall_impl; [|exact Hx]. intros d Hd. now left. }
      rewrite Forall_forall in Hcl. destruct (Hcl c Hc) as [Hw| ->].
      - rewrite Hw. reflexivity.
      - apply orb_true_r. }
    rewrite Hkeep, split_ws_join_solid; [|discriminate | assumption].
    apply filter_all. intros x Hx. rewrite Forall_forall in H.
    apply Nat.leb_le. now apply H.
Qed.

Lemma words_In (minWordLength : nat) (text w : jsstring) :
  In w (React.words minWordLength text) -> wordlike w /\ minWordLength <= length w.
Proof.
  unfold React.words. intros H. apply filter_In in H as [Hin Hlen].
  split; [|now apply Nat.leb_le].
  assert (Hc : Forall (fun c => is_word c = true \/ is_space c = true)
                      (React.removeNonWord text)).
  { apply Forall_forall. intros c Hc. apply filter_In in Hc as [_ Hc].
    now apply orb_prop in Hc. }
  apply (split_ws_pieces _ _ _ _ Hc) in Hin.
  eapply Forall_impl; [|exact Hin]. intros c [[Hw|Hs] Hn]; [assumption | congruence].
Qed.

(** ** Frequency tables *)

Lemma mem_In (k : jsstring) (l : list jsstring) : mem k l = true <-> In k l.
Proof.
  unfold mem. rewrite existsb_exists. split.
  - intros [x [Hx E]]. apply streq_true in E. now subst.
  - intros H. exists k. split; [assumption | apply streq_refl].
Qed.

Lemma mem_app (k : jsstring) (a b : list jsstring) : mem k (a ++ b) = mem k a || mem k b.
Proof. apply existsb_app. Qed.

Lemma filter_filter {A} (f g : A -> bool) (l : list A) :
  filter f (filter g l) = filter (fun x => g x && f x) l.
Proof.
  induction l as [|x l IH]; simpl; [reflexivity|].
  destruct (g x); simpl; [destruct (f x)|]; rewrite ?IH; reflexivity.
Qed.

Lemma sumValues_app (a b : JsMap) : sumValues (a ++ b) = sumValues a + sumValues b.
Proof.
  induction a as [|e a IH]; simpl; [reflexivity|]. rewrite IH. lia.
Qed.

Lemma sumValues_increment (m : JsMap) (k : jsstring) :
  sumValues (map_set m k (or0 (map_get m k) + 1)) = sumValues m + 1.
Proof.
  induction m as [|[k' v'] m IH]; simpl; [reflexivity|].
  destruct (streq k' k); simpl; [|rewrite IH]; lia.
Qed.

Lemma countTokens_app (m : JsMap) (a b : list jsstring) :
  Main.countTokens m (a ++ b) = Main.countTokens (Main.countTokens m a) b.
Proof. apply fold_left_app. Qed.

Lemma sumValues_countTokens (m : JsMap) (ts : list jsstring) :
  sumValues (Main.countTokens m ts) = sumValues m + length ts.
Proof.
  unfold Main.countTokens. revert m.
  induction ts as [|t ts IH]; intros m; simpl; [lia|].
  rewrite IH, sumValues_increment. lia.
Qed.

Lemma keys_map_set (m : JsMap) (k : jsstring) (v : nat) :
  keys (map_set m k v) = addKey (keys m) k.
Proof.
  unfold addKey.
  induction m as [|[k' v'] m IH]; simpl; [reflexivity|].
  rewrite (streq_sym k k'). destruct (streq k' k) eqn:E; simpl; [reflexivity|].
  unfold keys in *. simpl. rewrite IH. now destruct (mem k (map fst m)).
Qed.

(** The keys after a [set]: a new key goes last. *)
Lemma addKey_fold (xs ks : list jsstring) :
  fold_left addKey xs ks = ks ++ filter (fun k => negb (mem k ks)) (distinct xs).
Proof.
  revert ks. induction xs as [|x xs IH]; intros ks; simpl.
  - now rewrite app_nil_r.
  - rewrite IH. unfold addKey. destruct (mem x ks) eqn:E; simpl.
    + f_equal. rewrite filter_filter. apply filter_ext_in. intros y _.
      destruct (mem y ks) eqn:Ey; simpl; [now rewrite andb_false_r|].
      rewrite andb_true_r. symmetry.
      apply negb_true_iff, streq_false. intros ->. congruence.
    + rewrite <- app_assoc. simpl. f_equal. f_equal.
      rewrite filter_filter. apply filter_ext. intros y.
      rewrite mem_app. simpl. rewrite orb_false_r, negb_orb. apply andb_comm.
Qed.

(** The keys of a table filled by [set] calls: the keys it had, then the new
    ones in the order of their first [set]. *)
Lemma keys_fold_set {X} (kf : X -> jsstring) (g : JsMap -> X -> nat)
    (xs : list X) (m : JsMap) :
  keys (fold_left (fun m x => map_set m (kf x) (g m x)) xs m) =
  keys m ++ filter (fun k => negb (mem k (keys m))) (distinct (map kf xs)).
Proof.
  rewrite <- addKey_fold. revert m.
  induction xs as [|x xs IH]; intros m; simpl; [reflexivity|].
  now rewrite IH, keys_map_set.
Qed.

Lemma distinct_In (l : list jsstring) (x : jsstring) : In x (distinct l) <-> In x l.
Proof.
  induction l as [|y l IH]; simpl; [tauto|].
  rewrite filter_In, IH, negb_true_iff, streq_false.
  destruct (jsstring_eq_dec y x); intuition congruence.
Qed.

Lemma distinct_NoDup (l : list jsstring) : NoDup (distinct l).
Proof.
  induction l as [|y l IH]; simpl; constructor.
  - rewrite filter_In, negb_true_iff, streq_false. tauto.
  - now apply NoDup_filter.
Qed.

Lemma distinct_length_same_elements (a b : list jsstring) :
  (forall x, In x a <-> In x b) -> length (distinct a) = length (distinct b).
Proof.
  intros H. apply Permutation_length, NoDup_Permutation; try apply distinct_NoDup.
  intros x. rewrite !distinct_In. apply H.
Qed.

Lemma keys_countTokens (ts : list jsstring) :
  keys (Main.countTokens [] ts) = distinct ts.
Proof.
  unfold Main.countTokens.
  rewrite (keys_fold_set (fun t => t) (fun m t => or0 (map_get m t) + 1)).
  simpl. rewrite map_id. apply filter_all. reflexivity.
Qed.

(** ** The loop of [computeMetrics] in closed form *)

Lemma sum_from (arr : list nat) (a : nat) : fold_left Nat.add arr a = a + list_sum arr.
Proof.
  revert a. induction arr as [|x arr IH]; intros a; simpl; [lia|].
  rewrite IH. lia.
Qed.

Lemma sum_list_sum (arr : list nat) : Main.sum arr = list_sum arr.
Proof. unfold Main.sum. now rewrite sum_from. Qed.

Lemma length_concat_sum {A} (l : list (list A)) :
  length (concat l) = list_sum (map (@length A) l).
Proof.
  induction l as [|x l IH]; simpl; [reflexivity|].
  now rewrite length_app, IH.
Qed.

Section Loop.
Variable toLowerCase : jsstring -> jsstring.

#[local] Abbreviation addRow := (Main.addRow toLowerCase).
#[local] Abbreviation pos := (positiveRow toLowerCase).
#[local] Abbreviation neg := (negativeRow toLowerCase).
#[local] Abbreviation count := (tokenCount toLowerCase).

Lemma fold_addRow (rows : list Papa.Row) (init : Main.Result) :
  fold_left addRow rows init = {|
    Main.total := Main.total init;
    Main.lengthsOverall := Main.lengthsOverall init ++ map count rows;
    Main.lengthsPos := Main.lengthsPos init ++ map count (filter pos rows);
    Main.lengthsNeg := Main.lengthsNeg init ++ map count (filter neg rows);
    Main.posCount := Main.posCount init + length (filter pos rows);
    Main.negCount := Main.negCount init + length (filter neg rows);
    Main.posFreq :=
      Main.countTokens (Main.posFreq init) (allTokens toLowerCase (filter pos rows));
    Main.negFreq :=
      Main.countTokens (Main.negFreq init) (allTokens toLowerCase (filter neg rows)) |}.
Proof.
  revert init. induction rows as [|row rows IH]; intros init.
  - destruct init. simpl. rewrite !app_nil_r, !Nat.add_0_r. reflexivity.
  - simpl fold_left. rewrite IH. clear IH.
    unfold Main.addRow, positiveRow, negativeRow, tokenCount, tokensOf, allTokens.
    simpl filter.
    destruct (Main.isPositive (Main.sentimentOf toLowerCase row)) eqn:Ep;
      [|destruct (Main.isNegative (Main.sentimentOf toLowerCase row)) eqn:En];
      simpl; rewrite <- ?app_assoc; simpl;
      rewrite ?countTokens_app, <- ?Nat.add_assoc; reflexivity.
Qed.

Lemma computeMetrics_result (rows : list Papa.Row) :
  Main.result (Main.computeMetrics toLowerCase rows) = {|
    Main.total := length rows;
    Main.lengthsOverall := map count rows;
    Main.lengthsPos := map count (filter pos rows);
    Main.lengthsNeg := map count (filter neg rows);
    Main.posCount := length (filter pos rows);
    Main.negCount := length (filter neg rows);
    Main.posFreq := Main.countTokens [] (allTokens toLowerCase (filter pos rows));
    Main.negFreq := Main.countTokens [] (allTokens toLowerCase (filter neg rows)) |}.
Proof.
  unfold Main.computeMetrics. simpl Main.result.
  rewrite fold_addRow. reflexivity.
Qed.

Lemma sumValues_posFreq (rows : list Papa.Row) :
  sumValues (Main.posFreq (Main.result (Main.computeMetrics toLowerCase rows))) =
  list_sum (map count (filter pos rows)).
Proof.
  rewrite computeMetrics_result. simpl.
  rewrite sumValues_countTokens. unfold allTokens.
  rewrite length_concat_sum, map_map. reflexivity.
Qed.

Lemma sumValues_negFreq (rows : list Papa.Row) :
  sumValues (Main.negFreq (Main.result (Main.computeMetrics toLowerCase rows))) =
  list_sum (map count (filter neg rows)).
Proof.
  rewrite computeMetrics_result. simpl.
  rewrite sumValues_countTokens. unfold allTokens.
  rewrite length_concat_sum, map_map. reflexivity.
Qed.
End Loop.

(** ** The stable descending sort and [slice] *)

Section SortFacts.
Context {A : Type} (key : A -> nat).

Lemma insert_desc_perm (x : A) (l : list A) :
  Permutation (insert_desc key x l) (x :: l).
Proof.
  induction l as [|y ys IH]; simpl; [reflexivity|].
  destruct (key x <? key y); [|reflexivity].
  rewrite IH. apply perm_swap.
Qed.

Lemma sort_desc_perm (l : list A) : Permutation (sort_desc key l) l.
Proof.
  induction l as [|x l IH]; simpl; [reflexivity|].
  rewrite insert_desc_perm. now constructor.
Qed.

Lemma insert_desc_sorted (x : A) (l : list A) :
  StronglySorted (fun a b => key b <= key a) l ->
  StronglySorted (fun a b => key b <= key a) (insert_desc key x l).
Proof.
  induction 1 as [|y ys Hs IH Hy]; simpl.
  - repeat constructor.
  - destruct (Nat.ltb_spec (key x) (key y)) as [Hlt|Hge].
    + constructor; [exact IH|].
      eapply Permutation_Forall; [symmetry; apply insert_desc_perm|].
      constructor; [lia | exact Hy].
    + constructor; [now constructor|]. constructor; [exact Hge|].
      eapply Forall_impl; [|exact Hy]. simpl. intros z Hz. lia.
Qed.

Lemma sort_desc_sorted (l : list A) :
  StronglySorted (fun a b => key b <= key a) (sort_desc key l).
Proof.
  induction l as [|x l IH]; simpl; [constructor | now apply insert_desc_sorted].
Qed.

Lemma insert_desc_stable (c : nat) (x : A) (l : list A) :
  filter (fun e => key e =? c) (insert_desc key x l) =
  filter (fun e => key e =? c) (x :: l).
Proof.
  induction l as [|y ys IH]; [reflexivity|].
  simpl insert_desc. destruct (Nat.ltb_spec (key x) (key y)) as [Hlt|Hge]; [|reflexivity].
  simpl filter at 1. rewrite IH. simpl.
  destruct (Nat.eqb_spec (key y) c) as [Ey|Ey]; [|reflexivity].
  destruct (Nat.eqb_spec (key x) c) as [Ex|Ex]; [lia | reflexivity].
Qed.

Lemma sort_desc_stable (c : nat) (l : list A) :
  filter (fun e => key e =? c) (sort_desc key l) = filter (fun e => key e =? c) l.
Proof.
  induction l as [|x l IH]; [reflexivity|].
  simpl sort_desc. rewrite insert_desc_stable. simpl. now rewrite IH.
Qed.

Lemma topOf_sort_desc (K : nat) (l : list A) :
  topOf key K l (firstn K (sort_desc key l)).
Proof.
  exists (sort_desc key l).
  split; [apply sort_desc_perm|]. split; [apply sort_desc_sorted|].
  split; [intros c; apply sort_desc_stable | reflexivity].
Qed.
End SortFacts.

Lemma slice0_nonneg {A} (n : Z) (arr : list A) :
  (0 <= n)%Z -> slice0 n arr = firstn (Z.to_nat n) arr.
Proof.
  intros H. unfold slice0. destruct (Z.ltb_spec n 0); [lia | reflexivity].
Qed.

(** ** The object [wordFrequency] *)

Lemma sumTotals_app (a b : React.WordFrequency) :
  sumTotals (a ++ b) = sumTotals a + sumTotals b.
Proof.
  induction a as [|e a IH]; simpl; [reflexivity|]. rewrite IH. lia.
Qed.

Lemma own_Some_In (o : React.WordFrequency) (w : jsstring) (v : React.WordStats) :
  React.own o w = Some v -> In w (map fst o).
Proof.
  induction o as [|[k v'] o IH]; simpl; [discriminate|].
  destruct (streq k w) eqn:E; [apply streq_true in E; now left|].
  intros H. right. now apply IH.
Qed.

Lemma update_keys (o : React.WordFrequency) (w : jsstring)
    (f : React.WordStats -> React.WordStats) :
  map fst (React.update o w f) = map fst o.
Proof.
  induction o as [|[k v] o IH]; simpl; [reflexivity|].
  destruct (streq k w); simpl; [|rewrite IH]; reflexivity.
Qed.

Lemma update_absent (o : React.WordFrequency) (w : jsstring)
    (f : React.WordStats -> React.WordStats) :
  React.own o w = None -> React.update o w f = o.
Proof.
  induction o as [|[k v] o IH]; simpl; [reflexivity|].
  destruct (streq k w); [discriminate|]. intros H. now rewrite IH.
Qed.

Lemma own_update (o : React.WordFrequency) (w : jsstring)
    (f : React.WordStats -> React.WordStats) (v : React.WordStats) :
  React.own o w = Some v -> React.own (React.update o w f) w = Some (f v).
Proof.
  induction o as [|[k v'] o IH]; simpl; [discriminate|].
  destruct (streq k w) eqn:E; simpl; rewrite E; [congruence | exact IH].
Qed.

Lemma own_new (o : React.WordFrequency) (w : jsstring) (v : React.WordStats) :
  React.own o w = None -> React.own (o ++ [(w, v)]) w = Some v.
Proof.
  induction o as [|[k v'] o IH]; simpl; [now rewrite streq_refl|].
  destruct (streq k w); [discriminate | exact IH].
Qed.

Lemma update_sumTotals (o : React.WordFrequency) (w : jsstring)
    (f : React.WordStats -> React.WordStats) (v : React.WordStats) (d : nat) :
  React.own o w = Some v ->
  (forall s, React.total (f s) = React.total s + d) ->
  sumTotals (React.update o w f) = sumTotals o + d.
Proof.
  intros Hown Hf. induction o as [|[k v'] o IH]; simpl in *; [discriminate|].
  destruct (streq k w); simpl; [rewrite Hf | rewrite (IH Hown)]; lia.
Qed.

Lemma countSentiment_total (isPositive : bool) (s : React.WordStats) :
  React.total (React.countSentiment isPositive s) = React.total s + 0.
Proof. destruct isPositive; simpl; lia. Qed.

(** The two increments on a word that the object owns. *)
Lemma increments_sumTotals (isPositive : bool) (o : React.WordFrequency)
    (w : jsstring) (v : React.WordStats) :
  React.own o w = Some v ->
  sumTotals (React.update (React.update o w (React.countSentiment isPositive))
                          w React.countTotal)
  = sumTotals o + 1.
Proof.
  intros Hown.
  rewrite (update_sumTotals _ w React.countTotal
             (React.countSentiment isPositive v) 1);
    [|now apply own_update | reflexivity].
  rewrite (update_sumTotals o w _ v 0 Hown (countSentiment_total isPositive)). lia.
Qed.

(** A word that names a property of [Object.prototype] never gets an entry;
    any other word adds one to the totals. *)
Lemma addWord_spec (isPositive : bool) (o : React.WordFrequency) (w : jsstring) :
  Forall (fun k => React.inherited k = false) (map fst o) ->
  Forall (fun k => React.inherited k = false) (map fst (React.addWord isPositive o w)) /\
  sumTotals (React.addWord isPositive o w) =
  sumTotals o + (if React.inherited w then 0 else 1).
Proof.
  intros Hinv. unfold React.addWord, React.defined. cbv zeta.
  destruct (React.own o w) as [v|] eqn:Eo.
  - rewrite !update_keys. split; [assumption|].
    apply own_Some_In in Eo as Hin. rewrite Forall_forall in Hinv.
    rewrite (Hinv w Hin). now apply (increments_sumTotals isPositive o w v).
  - destruct (React.inherited w) eqn:Ei.
    + rewrite (update_absent o w _ Eo), (update_absent o w _ Eo).
      split; [assumption | lia].
    + rewrite !update_keys. split.
      * rewrite map_app. apply Forall_app. split; [assumption|]. now repeat constructor.
      * rewrite (increments_sumTotals isPositive _ w _ (own_new o w _ Eo)).
        rewrite sumTotals_app. simpl. lia.
Qed.

Lemma fold_addWord_spec (isPositive : bool) (ws : list jsstring) (o : React.WordFrequency) :
  Forall (fun k => React.inherited k = false) (map fst o) ->
  Forall (fun k => React.inherited k = false)
         (map fst (fold_left (React.addWord isPositive) ws o)) /\
  sumTotals (fold_left (React.addWord isPositive) ws o) =
  sumTotals o + length (filter (fun w => negb (React.inherited w)) ws).
Proof.
  revert o. induction ws as [|w ws IH]; intros o Hinv; simpl.
  - split; [assumption | lia].
  - destruct (addWord_spec isPositive o w Hinv) as [Hinv' Hsum].
    destruct (IH _ Hinv') as [Hinv'' Hsum'].
    split; [assumption|]. rewrite Hsum', Hsum.
    destruct (React.inherited w); simpl; lia.
Qed.

Lemma fold_addMessage_spec (minWordLength : nat) (messages : list React.Message)
    (o : React.WordFrequency) :
  Forall (fun k => React.inherited k = false) (map fst o) ->
  sumTotals (fold_left (React.addMessage minWordLength) messages o) =
  sumTotals o +
  length (filter (fun w => negb (React.inherited w))
                 (concat (map (wordsOf minWordLength) messages))).
Proof.
  revert o. induction messages as [|msg messages IH]; intros o Hinv; simpl.
  - lia.
  - unfold React.addMessage at 2.
    destruct (fold_addWord_spec (streq (React.sentiment msg) (lit "positive"))
                (React.words minWordLength (React.text msg)) o Hinv) as [Hinv' Hsum].
    rewrite (IH _ Hinv'), Hsum, filter_app, length_app. unfold wordsOf. lia.
Qed.

(** The totals of [wordFrequency] add up to the number of words that do not
    name a property of [Object.prototype]. *)
Lemma wordFrequency_sumTotals (minWordLength : nat) (messages : list React.Message) :
  sumTotals (React.wordFrequency minWordLength messages) =
  length (filter (fun w => negb (React.inherited w))
                 (concat (map (wordsOf minWordLength) messages))).
Proof.
  unfold React.wordFrequency. rewrite fold_addMessage_spec; [reflexivity | constructor].
Qed.

(** ** [Object.values] *)

Lemma insert_index_perm (e : jsstring * React.WordStats) (l : React.WordFrequency) :
  Permutation (React.insert_index e l) (e :: l).
Proof.
  induction l as [|y ys IH]; simpl; [reflexivity|].
  destruct (React.indexOf e <? React.indexOf y)%N; [reflexivity|].
  rewrite IH. apply perm_swap.
Qed.

Lemma insert_index_sorted (e : jsstring * React.WordStats) (l : React.WordFrequency) :
  StronglySorted (fun a b => (React.indexOf a <= React.indexOf b)%N) l ->
  StronglySorted (fun a b => (React.indexOf a <= React.indexOf b)%N)
                 (React.insert_index e l).
Proof.
  induction 1 as [|y ys Hs IH Hy]; simpl.
  - repeat constructor.
  - destruct (N.ltb_spec (React.indexOf e) (React.indexOf y)) as [Hlt|Hge].
    + constructor; [now constructor|]. constructor; [lia|].
      eapply Forall_impl; [|exact Hy]. simpl. intros z Hz. lia.
    + constructor; [exact IH|].
      eapply Permutation_Forall; [symmetry; apply insert_index_perm|].
      constructor; [exact Hge | exact Hy].
Qed.

(** The array-index names come first, in ascending order; the other names
    follow in creation order. *)
Lemma objectValues_order (o : React.WordFrequency) :
  exists indexed,
    Permutation indexed (filter React.isIndex o) /\
    StronglySorted (fun a b => (React.indexOf a <= React.indexOf b)%N) indexed /\
    React.objectValues o =
    map snd (indexed ++ filter (fun e => negb (React.isIndex e)) o).
Proof.
  exists (fold_right React.insert_index [] (filter React.isIndex o)).
  split; [|split; [|reflexivity]].
  - induction (filter React.isIndex o) as [|e l IH]; simpl; [reflexivity|].
    rewrite insert_index_perm. now constructor.
  - induction (filter React.isIndex o) as [|e l IH]; simpl;
      [constructor | now apply insert_index_sorted].
Qed.

(** ** Splitting a join of the pieces of a split *)

Lemma split_ws_not_nil (in_run : bool) (s : jsstring) : split_ws_from in_run s <> [].
Proof.
  revert in_run. induction s as [|c r IH]; intros in_run; simpl; [discriminate|].
  destruct (is_space c).
  - destruct in_run; [apply IH | discriminate].
  - destruct (split_ws_from false r); discriminate.
Qed.

Lemma join_cons_head (c : codeunit) (w : jsstring) (ws : list jsstring) :
  join space ((c :: w) :: ws) = c :: join space (w :: ws).
Proof. destruct ws; reflexivity. Qed.

Lemma split_ws_space (t : jsstring) :
  split_ws_from false (space :: t) = [] :: split_ws_from true t.
Proof. reflexivity. Qed.

Lemma split_ws_letter (in_run : bool) (c : codeunit) (t : jsstring) :
  is_space c = false ->
  split_ws_from in_run (c :: t)
  = match split_ws_from false t with
    | [] => [[c]]
    | w :: ws => (c :: w) :: ws
    end.
Proof.
  intros H. simpl. now rewrite H.
Qed.

Lemma split_ws_join_pieces (in_run : bool) (s : jsstring) :
  split_ws_from in_run (join space (split_ws_from in_run s)) = split_ws_from in_run s.
Proof.
  revert in_run. induction s as [|c r IH]; intros in_run; [now destruct in_run|].
  destruct (is_space c) eqn:Ec.
  - assert (E : split_ws_from in_run (c :: r)
                = if in_run then split_ws_from true r else [] :: split_ws_from true r)
      by (simpl; now rewrite Ec).
    rewrite E. destruct in_run; [apply IH|].
    pose proof (split_ws_not_nil true r) as Hne. specialize (IH true).
    destruct (split_ws_from true r) as [|x xs]; [congruence|].
    rewrite join_cons2. change ([] ++ space :: join space (x :: xs))
      with (space :: join space (x :: xs)).
    now rewrite split_ws_space, IH.
  - rewrite (split_ws_letter in_run c r Ec).
    pose proof (split_ws_not_nil false r) as Hne. specialize (IH false).
    destruct (split_ws_from false r) as [|w0 ws]; [congruence|].
    now rewrite join_cons_head, (split_ws_letter in_run c _ Ec), IH.
Qed.

(** The words of a join of the words of a text are those words, whatever the
    minimal length. *)
Lemma words_join_words (minWordLength : nat) (text : jsstring) :
  React.words minWordLength (join space (React.words minWordLength text))
  = React.words minWordLength text.
Proof.
  destruct minWordLength as [|n].
  - unfold React.words. rewrite !(filter_all (fun word => 0 <=? length word))
      by reflexivity.
    assert (Hkeep : React.removeNonWord (join space (split_ws (React.removeNonWord text)))
                    = join space (split_ws (React.removeNonWord text))).
    { apply filter_all. intros c Hc.
      assert (Hcl : Forall (fun c => is_word c = true \/ c = space)
                           (join space (split_ws (React.removeNonWord text)))).
      { apply join_class; [now right|]. apply Forall_forall. intros w Hw.
        destruct (words_In 0 text w) as [Hwl _].
        - unfold React.words. rewrite filter_all by reflexivity. exact Hw.
        - eapply Forall_impl; [|exact Hwl]. intros d Hd. now left. }
      rewrite Forall_forall in Hcl. destruct (Hcl c Hc) as [Hw| ->].
      - rewrite Hw. reflexivity.
      - apply orb_true_r. }
    rewrite Hkeep. apply split_ws_join_pieces.
  - apply words_join; [lia|].
    apply Forall_forall. intros w Hw. now apply words_In in Hw.
Qed.

(** ** The order in which [wordFrequency] gets its properties *)

Lemma own_None_mem (o : React.WordFrequency) (w : jsstring) :
  React.own o w = None <-> mem w (map fst o) = false.
Proof.
  induction o as [|[k v] o IH]; simpl; [tauto|].
  rewrite (streq_sym w k). destruct (streq k w); simpl; [split; discriminate | exact IH].
Qed.

Lemma addWord_keys (isPositive : bool) (o : React.WordFrequency) (w : jsstring) :
  Forall (fun k => React.inherited k = false) (map fst o) ->
  map fst (React.addWord isPositive o w)
  = if React.inherited w then map fst o else addKey (map fst o) w.
Proof.
  intros Hinv. unfold React.addWord, React.defined, addKey. cbv zeta.
  rewrite !update_keys.
  destruct (React.own o w) as [v|] eqn:Eo.
  - apply own_Some_In in Eo as Hin.
    rewrite Forall_forall in Hinv. rewrite (Hinv w Hin).
    apply mem_In in Hin. now rewrite Hin.
  - apply own_None_mem in Eo. rewrite Eo.
    destruct (React.inherited w); [reflexivity|]. now rewrite map_app.
Qed.

Lemma fold_addWord_keys (isPositive : bool) (ws : list jsstring) (o : React.WordFrequency) :
  Forall (fun k => React.inherited k = false) (map fst o) ->
  map fst (fold_left (React.addWord isPositive) ws o)
  = fold_left addKey (filter (fun w => negb (React.inherited w)) ws) (map fst o).
Proof.
  revert o. induction ws as [|w ws IH]; intros o Hinv; simpl; [reflexivity|].
  destruct (addWord_spec isPositive o w Hinv) as [Hinv' _].
  rewrite (IH _ Hinv'), (addWord_keys isPositive o w Hinv).
  destruct (React.inherited w); reflexivity.
Qed.

Lemma fold_addMessage_keys (minWordLength : nat) (messages : list React.Message)
    (o : React.WordFrequency) :
  Forall (fun k => React.inherited k = false) (map fst o) ->
  map fst (fold_left (React.addMessage minWordLength) messages o)
  = fold_left addKey
      (filter (fun w => negb (React.inherited w))
              (concat (map (wordsOf minWordLength) messages)))
      (map fst o).
Proof.
  revert o. induction messages as [|msg messages IH]; intros o Hinv; simpl; [reflexivity|].
  unfold React.addMessage at 2.
  destruct (fold_addWord_spec (streq (React.sentiment msg) (lit "positive"))
              (React.words minWordLength (React.text msg)) o Hinv) as [Hinv' _].
  rewrite (IH _ Hinv'), (fold_addWord_keys _ _ o Hinv), filter_app, fold_left_app.
  reflexivity.
Qed.

(** The properties of [wordFrequency] are made in the order in which the
    words are first met, the names of [Object.prototype] left out. *)
Lemma wordFrequency_keys (minWordLength : nat) (messages : list React.Message) :
  map fst (React.wordFrequency minWordLength messages)
  = distinct (filter (fun w => negb (React.inherited w))
                     (concat (map (wordsOf minWordLength) messages))).
Proof.
  unfold React.wordFrequency. rewrite fold_addMessage_keys by constructor.
  rewrite addKey_fold. simpl. apply filter_all. reflexivity.
Qed.

(** ** The shape of a text with its white space collapsed *)

Lemma collapse_shape (x : jsstring) (in_run : bool) :
  exists lead ws trail,
    Main.collapse_from in_run x = lead ++ join space ws ++ trail
    /\ Forall solid ws
    /\ (lead = [] \/ (lead = [space] /\ in_run = false))
    /\ (trail = [] \/ (trail = [space] /\ ws <> [])).
Proof.
  revert in_run. induction x as [|c r IH]; intros in_run.
  - exists [], [], []. repeat split; auto.
  - simpl. destruct (is_space c) eqn:Ec.
    + destruct in_run; [apply IH|].
      destruct (IH true) as [lead [ws [trail [E [Hws [[->|[_ Hf]] Ht]]]]]]; [|discriminate].
      exists [space], ws, trail. rewrite E. repeat split; auto.
    + destruct (IH false) as [lead [ws [trail [E [Hws [Hl Ht]]]]]]. rewrite E.
      destruct Hl as [->|[-> _]]; destruct ws as [|w ws'].
      * destruct Ht as [->|[_ Hne]]; [|congruence].
        exists [], [[c]], []. repeat split; auto.
        constructor; [|constructor]. split; [discriminate | now repeat constructor].
      * exists [], ((c :: w) :: ws'), trail.
        split; [rewrite join_cons_head; reflexivity|].
        repeat split; auto.
        -- inversion Hws as [|? ? [Hw Hs] Hrest]; subst.
           constructor; [|assumption]. split; [discriminate | now constructor].
        -- destruct Ht as [->|[-> _]]; [now left | right; split; [reflexivity | discriminate]].
      * destruct Ht as [->|[_ Hne]]; [|congruence].
        exists [], [[c]], [space]. repeat split; auto.
        -- constructor; [|constructor]. split; [discriminate | now repeat constructor].
        -- right. split; [reflexivity | discriminate].
      * exists [], ([c] :: w :: ws'), trail.
        split; [rewrite join_cons2; reflexivity|].
        repeat split; auto.
        -- constructor; [|assumption]. split; [discriminate | now repeat constructor].
        -- destruct Ht as [->|[-> _]]; [now left | right; split; [reflexivity | discriminate]].
Qed.

Lemma trim_spaces (s : jsstring) :
  Forall (fun c => is_space c = true) s -> trim s = [].
Proof.
  intros H. unfold trim.
  assert (E : trimStart s = []).
  { induction H as [|c r Hc Hr IH]; simpl; [reflexivity | now rewrite Hc]. }
  rewrite E. reflexivity.
Qed.

Lemma trim_padded_join (lead trail : jsstring) (ws : list jsstring) :
  Forall solid ws ->
  lead = [] \/ lead = [space] ->
  trail = [] \/ trail = [space] ->
  trim (lead ++ join space ws ++ trail) = join space ws.
Proof.
  intros Hws Hl Ht. destruct ws as [|w ws'].
  - simpl. apply trim_spaces.
    destruct Hl as [->| ->], Ht as [->| ->]; repeat constructor.
  - destruct (join_solid_head (w :: ws')) as [c [r [E Hc]]]; [discriminate | assumption|].
    destruct (join_solid_last (w :: ws')) as [r' [c' [E' Hc']]]; [discriminate | assumption|].
    unfold trim.
    assert (E1 : trimStart (lead ++ join space (w :: ws') ++ trail)
                 = join space (w :: ws') ++ trail).
    { rewrite E. destruct Hl as [->| ->]; simpl; now rewrite Hc. }
    rewrite E1, rev_app_distr.
    assert (E2 : trimStart (rev trail ++ rev (join space (w :: ws')))
                 = rev (join space (w :: ws'))).
    { rewrite E', rev_app_distr. destruct Ht as [->| ->]; simpl; now rewrite Hc'. }
    rewrite E2. apply rev_involutive.
Qed.

Lemma join_In (ws : list jsstring) (w : jsstring) (c : codeunit) :
  In w ws -> In c w -> In c (join space ws).
Proof.
  induction ws as [|x ws IH]; intros Hw Hc; [destruct Hw|].
  destruct ws as [|y ws'].
  - destruct Hw as [->|[]]. exact Hc.
  - rewrite join_cons2. apply in_or_app. destruct Hw as [->|Hw]; [now left|].
    right. right. now apply IH.
Qed.

(** ** The runs of letters of a text are its words *)

Lemma pieces_not_nil (p : codeunit -> bool) (s : jsstring) : pieces p s <> [].
Proof.
  destruct s as [|c r]; simpl; [discriminate|].
  destruct (p c); [|discriminate]. destruct (pieces p r); discriminate.
Qed.

Lemma pieces_app (p : codeunit -> bool) (a b : jsstring) (c : codeunit) :
  p c = false -> pieces p (a ++ c :: b) = pieces p a ++ pieces p b.
Proof.
  intros Hc. induction a as [|d a IH]; simpl.
  - now rewrite Hc.
  - rewrite IH. destruct (p d); [|reflexivity].
    pose proof (pieces_not_nil p a) as Hne.
    destruct (pieces p a); [congruence | reflexivity].
Qed.

Lemma runs_app (p : codeunit -> bool) (a b : jsstring) (c : codeunit) :
  p c = false -> runs p (a ++ c :: b) = runs p a ++ runs p b.
Proof.
  intros Hc. unfold runs. now rewrite (pieces_app p a b c Hc), filter_app.
Qed.

Lemma pieces_all (p : codeunit -> bool) (w : jsstring) :
  Forall (fun c => p c = true) w -> pieces p w = [w].
Proof.
  induction 1 as [|c r Hc Hr IH]; simpl; [reflexivity|]. now rewrite Hc, IH.
Qed.

Lemma runs_all (p : codeunit -> bool) (w : jsstring) :
  w <> [] -> Forall (fun c => p c = true) w -> runs p w = [w].
Proof.
  intros Hne H. unfold runs. rewrite (pieces_all p w H). simpl.
  apply streq_false in Hne. now rewrite Hne.
Qed.

Lemma runs_nonletter (p : codeunit -> bool) (c : codeunit) (r : jsstring) :
  p c = false -> runs p (c :: r) = runs p r.
Proof.
  intros Hc. unfold runs. simpl. now rewrite Hc.
Qed.

Lemma runs_trailing (p : codeunit -> bool) (s : jsstring) (c : codeunit) :
  p c = false -> runs p (s ++ [c]) = runs p s.
Proof.
  intros Hc. rewrite (runs_app p s [] c Hc). unfold runs at 2. simpl. apply app_nil_r.
Qed.

(** The pieces of a string in which the units that do not satisfy [p] are
    replaced by others that do not. *)
Lemma pieces_map (p : codeunit -> bool) (f : codeunit -> codeunit) (s : jsstring) :
  (forall c, p (f c) = p c) -> (forall c, p c = true -> f c = c) ->
  pieces p (map f s) = pieces p s.
Proof.
  intros Hp Hf. induction s as [|c r IH]; simpl; [reflexivity|].
  rewrite Hp, IH. destruct (p c) eqn:E; [|reflexivity]. now rewrite (Hf c E).
Qed.

Lemma runs_replaceNonLetters (s : jsstring) :
  letterRuns (Main.replaceNonLetters s) = letterRuns s.
Proof.
  unfold letterRuns, runs, Main.replaceNonLetters. rewrite pieces_map; [reflexivity| |].
  - intros c. destruct (is_lower c) eqn:El; simpl; [exact El|].
    destruct (is_space c) eqn:Es; [exact El | reflexivity].
  - intros c El. now rewrite El.
Qed.

(** The first piece, and the runs, of a string with one more unit in front. *)
Lemma runs_cons (p : codeunit -> bool) (c : codeunit) (r : jsstring) :
  p c = true ->
  runs p (c :: r)
  = (c :: hd [] (pieces p r))
    :: (if streq (hd [] (pieces p r)) [] then runs p r else tl (runs p r)).
Proof.
  intros Hc. unfold runs. simpl. rewrite Hc.
  pose proof (pieces_not_nil p r) as Hne.
  destruct (pieces p r) as [|w ws]; [congruence|]. simpl.
  destruct (streq w []); reflexivity.
Qed.

Lemma hd_pieces_cons (p : codeunit -> bool) (c : codeunit) (r : jsstring) :
  hd [] (pieces p (c :: r)) = if p c then c :: hd [] (pieces p r) else [].
Proof.
  simpl. destruct (p c); [|reflexivity].
  pose proof (pieces_not_nil p r) as Hne.
  destruct (pieces p r); [congruence | reflexivity].
Qed.

Lemma collapse_runs (x : jsstring) :
  Forall (fun c => is_lower c = true \/ is_space c = true) x ->
  forall in_run : bool,
    letterRuns (Main.collapse_from in_run x) = letterRuns x
    /\ hd [] (pieces is_lower (Main.collapse_from false x)) = hd [] (pieces is_lower x).
Proof.
  unfold letterRuns.
  induction 1 as [|c r Hc Hr IH]; intros in_run; [split; reflexivity|].
  assert (Hcase : is_space c = true /\ is_lower c = false
                  \/ is_space c = false /\ is_lower c = true).
  { destruct Hc as [Hc|Hc].
    - right. split; [now apply lower_not_space | exact Hc].
    - left. split; [exact Hc|]. destruct (is_lower c) eqn:E; [|reflexivity].
      apply lower_not_space in E. congruence. }
  simpl Main.collapse_from.
  destruct Hcase as [[Es El]|[Es El]]; rewrite Es.
  - assert (Hsp : is_lower space = false) by reflexivity.
    split.
    + destruct in_run.
      * rewrite (runs_nonletter _ c r El). apply IH.
      * rewrite (runs_nonletter _ space _ Hsp), (runs_nonletter _ c r El). apply IH.
    + rewrite !hd_pieces_cons, El, Hsp. reflexivity.
  - destruct (IH false) as [IHr IHh].
    split.
    + rewrite !(runs_cons _ c _ El), IHh, IHr. reflexivity.
    + rewrite !hd_pieces_cons, El, IHh. reflexivity.
Qed.

Lemma pieces_join (ts : list jsstring) :
  ts <> [] -> Forall (fun w => w <> [] /\ alphabetic w) ts ->
  pieces is_lower (join space ts) = ts.
Proof.
  intros Hne H. induction H as [|w ws [Hw Ha] Hws IH]; [now exfalso; apply Hne|].
  destruct ws as [|w1 ws'].
  - simpl join. now apply pieces_all.
  - rewrite join_cons2, (pieces_app is_lower w _ space eq_refl).
    rewrite (pieces_all is_lower w Ha). simpl app. f_equal. apply IH. discriminate.
Qed.

Lemma runs_join (ts : list jsstring) :
  Forall (fun w => w <> [] /\ alphabetic w) ts -> letterRuns (join space ts) = ts.
Proof.
  intros H. destruct ts as [|w ws]; [reflexivity|].
  unfold letterRuns, runs. rewrite pieces_join by (discriminate || assumption).
  apply filter_all. intros x Hx. rewrite Forall_forall in H.
  destruct (H x Hx) as [Hne _]. apply streq_false in Hne. now rewrite Hne.
Qed.

Lemma tokenize_runs (toLowerCase : jsstring -> jsstring) (text : jsstring) :
  text <> [] ->
  Main.tokenize toLowerCase text
  = filter (fun w => negb (Main.isStopword w))
           (letterRuns (Main.stripUrls (toLowerCase text))).
Proof.
  intros Htext.
  pose proof (sanitizeText_class toLowerCase text) as Hclass.
  rewrite (sanitizeText_nonempty _ _ Htext) in Hclass.
  set (x := Main.replaceNonLetters (Main.stripUrls (toLowerCase text))) in *.
  assert (Hx : Forall (fun c => is_lower c = true \/ is_space c = true) x)
    by apply replaceNonLetters_class.
  unfold Main.collapseSpaces in Hclass.
  destruct (collapse_shape x false) as [lead [ws [trail [E [Hws [Hl Ht]]]]]].
  assert (Et : trim (lead ++ join space ws ++ trail) = join space ws).
  { apply trim_padded_join; [assumption | tauto | tauto]. }
  assert (Hclean : Main.sanitizeText toLowerCase text = join space ws).
  { rewrite (sanitizeText_nonempty _ _ Htext). fold x. unfold Main.collapseSpaces.
    now rewrite E, Et. }
  rewrite E, Et in Hclass.
  assert (Hal : Forall (fun w => w <> [] /\ alphabetic w) ws).
  { apply Forall_forall. intros w Hw. rewrite Forall_forall in Hws.
    destruct (Hws w Hw) as [Hne Hsolid]. split; [assumption|].
    apply Forall_forall. intros c Hc.
    rewrite Forall_forall in Hclass. rewrite Forall_forall in Hsolid.
    destruct (Hclass c (join_In ws w c Hw Hc)) as [Hlow| ->]; [assumption|].
    specialize (Hsolid _ Hc). discriminate. }
  assert (Hruns : letterRuns (Main.stripUrls (toLowerCase text)) = ws).
  { rewrite <- runs_replaceNonLetters. fold x.
    rewrite <- (proj1 (collapse_runs x Hx false)), E.
    assert (Hsp : is_lower space = false) by reflexivity.
    assert (Htr : letterRuns (join space ws ++ trail) = letterRuns (join space ws)).
    { destruct Ht as [->|[-> _]]; [now rewrite app_nil_r|].
      apply (runs_trailing is_lower _ space Hsp). }
    destruct Hl as [->|[-> _]]; simpl app.
    - rewrite Htr. now apply runs_join.
    - unfold letterRuns in *. rewrite (runs_nonletter _ space _ Hsp), Htr.
      now apply runs_join. }
  rewrite Hruns.
  destruct ws as [|w ws'].
  - unfold Main.tokenize. rewrite Hclean. reflexivity.
  - destruct (join_solid_head (w :: ws')) as [c [r [Ej Hc]]]; [discriminate | assumption|].
    rewrite tokenize_nonempty by (rewrite Hclean, Ej; discriminate).
    rewrite Hclean, split_join_solid by (discriminate || assumption).
    apply filter_ext_in. intros y Hy. rewrite Forall_forall in Hal.
    destruct (Hal y Hy) as [Hne _]. apply streq_false in Hne. now rewrite Hne.
Qed.

(** A match of the URL pattern holds a colon and a slash. *)
Lemma url_at_slash (s : jsstring) : Main.url_at s = true -> In 47%N s.
Proof.
  unfold Main.url_at. intros H.
  destruct (Main.after_prefix (lit "https://") s) as [r|] eqn:E1.
  - apply after_prefix_app in E1. subst s. apply in_or_app. left.
    vm_compute. tauto.
  - destruct (Main.after_prefix (lit "http://") s) as [r|] eqn:E2; [|discriminate].
    apply after_prefix_app in E2. subst s. apply in_or_app. left.
    vm_compute. tauto.
Qed.

Lemma stripUrls_one_mark (s : jsstring) :
  ~ (In 58%N s /\ In 47%N s) -> Main.stripUrls s = s.
Proof.
  unfold Main.stripUrls. induction s as [|c r IH]; intros H; [reflexivity|].
  simpl Main.stripUrls_from.
  destruct (Main.url_at (c :: r)) eqn:E.
  - exfalso. apply H. split; [now apply url_at_colon | now apply url_at_slash].
  - f_equal. apply IH. intros [H1 H2]. apply H. split; now right.
Qed.

Lemma letter_separates (toLowerCase : jsstring -> jsstring)
    (text u v : jsstring) (c : codeunit) :
  text <> [] -> toLowerCase text = u ++ c :: v ->
  u <> [] /\ alphabetic u /\ Main.isStopword u = false ->
  v <> [] /\ alphabetic v /\ Main.isStopword v = false ->
  is_lower c = false ->
  Main.tokenize toLowerCase text = [u; v].
Proof.
  intros Htext E [Hu0 [Hu Hus]] [Hv0 [Hv Hvs]] Hc.
  rewrite (tokenize_runs _ _ Htext), E.
  rewrite stripUrls_one_mark.
  - unfold letterRuns. rewrite (runs_app is_lower u v c Hc).
    rewrite (runs_all _ u Hu0 Hu), (runs_all _ v Hv0 Hv). simpl.
    now rewrite Hus, Hvs.
  - intros [H1 H2].
    assert (Hin : forall d, In d (u ++ c :: v) -> is_lower d = false -> d = c).
    { intros d Hd Hl. unfold alphabetic in Hu, Hv. rewrite Forall_forall in Hu, Hv.
      apply in_app_or in Hd as [Hd|[Hd|Hd]].
      - rewrite (Hu d Hd) in Hl. discriminate.
      - now symmetry.
      - rewrite (Hv d Hd) in Hl. discriminate. }
    pose proof (Hin _ H1 eq_refl) as A. pose proof (Hin _ H2 eq_refl) as B.
    rewrite <- A in B. discriminate.
Qed.

Lemma removeNonWord_deletes (a b : jsstring) (c : codeunit) :
  is_word c = false -> is_space c = false ->
  React.removeNonWord (a ++ c :: b) = React.removeNonWord (a ++ b).
Proof.
  intros Hw Hs. unfold React.removeNonWord. rewrite !filter_app. simpl.
  now rewrite Hw, Hs.
Qed.

Lemma words_glued (minWordLength : nat) (u v : jsstring) (c : codeunit) :
  is_word c = false -> is_space c = false ->
  u <> [] -> wordlike u -> wordlike v ->
  React.words minWordLength (u ++ c :: v)
  = if minWordLength <=? length (u ++ v) then [u ++ v] else [].
Proof.
  intros Hw Hs Hu0 Hu Hv. unfold React.words.
  rewrite (removeNonWord_deletes u v c Hw Hs).
  assert (Huv : wordlike (u ++ v)) by (apply Forall_app; now split).
  assert (Hkeep : React.removeNonWord (u ++ v) = u ++ v).
  { apply filter_all. intros d Hd. unfold wordlike in Huv. rewrite Forall_forall in Huv.
    now rewrite (Huv d Hd). }
  rewrite Hkeep. unfold split_ws. rewrite split_ws_solid_alone.
  - simpl. destruct (minWordLength <=? length (u ++ v)); reflexivity.
  - eapply Forall_impl; [|exact Huv]. apply word_not_space.
  - destruct u; [congruence | discriminate].
Qed.

(** * The claims *)

(** ** C10: stop words *)

(** C10. Whatever the input string, no token that [tokenize] of the static
    page's script returns is in [ENGLISH_STOPWORDS]: the filter is part of
    [tokenize] itself, which takes the text and nothing else. *)
Theorem tokenize_drops_stopwords (toLowerCase : jsstring -> jsstring) (text w : jsstring) :
  In w (Main.tokenize toLowerCase text) -> ~ In w Main.ENGLISH_STOPWORDS.
Proof.
  intros H Hin. apply tokenize_In in H as [_ [_ H]].
  apply isStopword_In in Hin. congruence.
Qed.

Lemma tokenize_drops_stopwords_witness :
  In (lit "cat") (Main.tokenize toLowerCaseAscii (lit "The cat is on the mat"))
  /\ ~ In (lit "cat") Main.ENGLISH_STOPWORDS.
Proof.
  split.
  - vm_compute. left. reflexivity.
  - apply (tokenize_drops_stopwords toLowerCaseAscii (lit "The cat is on the mat")).
    vm_compute. left. reflexivity.
Defined.

(** ** C3: what a token is made of *)

(** C3, as the two scripts have it. In the static page's script every unit
    that is neither a letter [a-z] nor white space is replaced by one space
    before the split, so that the tokens of a text are the maximal runs of
    letters [a-z] of the text in lower case without its URLs, the stop words
    left out: every token is a non-empty string of letters [a-z], and a unit
    that is not a letter, whichever it is, ends the run before it and starts
    a new one after it. The word split of the React component deletes the
    units outside [\w] and white space instead: its words are strings of
    units of [\w], digits and underscores included, of at least the minimal
    length, and such a unit inside a word leaves the two parts of the word
    glued into one. *)
Theorem token_classes :
  (forall (toLowerCase : jsstring -> jsstring) (text w : jsstring),
      In w (Main.tokenize toLowerCase text) -> w <> [] /\ alphabetic w)
  /\ (forall (toLowerCase : jsstring -> jsstring) (text : jsstring),
      text <> [] ->
      Main.tokenize toLowerCase text
      = filter (fun w => negb (Main.isStopword w))
               (letterRuns (Main.stripUrls (toLowerCase text))))
  /\ (forall (a b : jsstring) (c : codeunit),
      is_lower c = false -> letterRuns (a ++ c :: b) = letterRuns a ++ letterRuns b)
  /\ (forall w : jsstring, w <> [] -> alphabetic w -> letterRuns w = [w])
  /\ (forall (toLowerCase : jsstring -> jsstring) (text u v : jsstring) (c : codeunit),
      text <> [] -> toLowerCase text = u ++ c :: v ->
      u <> [] /\ alphabetic u /\ Main.isStopword u = false ->
      v <> [] /\ alphabetic v /\ Main.isStopword v = false ->
      is_lower c = false ->
      Main.tokenize toLowerCase text = [u; v])
  /\ (forall (minWordLength : nat) (text w : jsstring),
      In w (React.words minWordLength text) ->
      wordlike w /\ minWordLength <= length w)
  /\ (forall (minWordLength : nat) (a b : jsstring) (c : codeunit),
      is_word c = false -> is_space c = false ->
      React.words minWordLength (a ++ c :: b) = React.words minWordLength (a ++ b))
  /\ (forall (minWordLength : nat) (u v : jsstring) (c : codeunit),
      is_word c = false -> is_space c = false ->
      u <> [] -> wordlike u -> wordlike v ->
      React.words minWordLength (u ++ c :: v)
      = if minWordLength <=? length (u ++ v) then [u ++ v] else []).
Proof.
  split; [|split; [|split; [|split; [|split; [|split; [|split]]]]]].
  - intros toLowerCase text w H. apply tokenize_In in H. tauto.
  - apply tokenize_runs.
  - intros a b c Hc. now apply runs_app.
  - intros w Hne Hw. now apply runs_all.
  - apply letter_separates.
  - apply words_In.
  - intros minWordLength a b c Hw Hs. unfold React.words.
    now rewrite (removeNonWord_deletes a b c Hw Hs).
  - apply words_glued.
Qed.

Lemma token_classes_witness :
  (In (lit "great") (Main.tokenize toLowerCaseAscii (lit "GREAT, isn't it?"))
   /\ lit "great" <> [] /\ alphabetic (lit "great"))
  /\ Main.tokenize toLowerCaseAscii (lit "Good:Film") = [lit "good"; lit "film"]
  /\ Main.tokenize toLowerCaseAscii (lit "well" ++ 8212%N :: lit "made")
     = [lit "well"; lit "made"]
  /\ (In (lit "it_s") (React.words 3 (lit "it_s 42"))
      /\ wordlike (lit "it_s") /\ 3 <= length (lit "it_s"))
  /\ React.words 3 (lit "don't") = [lit "dont"].
Proof.
  destruct token_classes as [T1 [_ [_ [_ [T5 [T6 [_ T8]]]]]]].
  split; [|split; [|split; [|split]]].
  - split; [vm_compute; left; reflexivity|].
    apply (T1 toLowerCaseAscii (lit "GREAT, isn't it?")).
    vm_compute. left. reflexivity.
  - apply (T5 toLowerCaseAscii (lit "Good:Film") (lit "good") (lit "film") 58%N).
    + discriminate.
    + reflexivity.
    + split; [discriminate|]. split; [|reflexivity]. repeat constructor.
    + split; [discriminate|]. split; [|reflexivity]. repeat constructor.
    + reflexivity.
  - apply (T5 toLowerCaseAscii (lit "well" ++ 8212%N :: lit "made")
              (lit "well") (lit "made") 8212%N).
    + discriminate.
    + reflexivity.
    + split; [discriminate|]. split; [|reflexivity]. repeat constructor.
    + split; [discriminate|]. split; [|reflexivity]. repeat constructor.
    + reflexivity.
  - split; [vm_compute; left; reflexivity|].
    apply (T6 3 (lit "it_s 42")).
    vm_compute. left. reflexivity.
  - apply (T8 3 (lit "don") (lit "t") 39%N).
    + reflexivity.
    + reflexivity.
    + discriminate.
    + repeat constructor.
    + repeat constructor.
Defined.

(** C3 as stated fails on the word split of the React component: in
    ["don't 42"] the apostrophe is deleted, not turned into a boundary, and
    the digits stay. *)
Lemma react_words_keep_digits :
  React.words 2 (lit "don't 42") = [lit "dont"; lit "42"]
  /\ ~ alphabetic (lit "42").
Proof.
  split; [reflexivity|].
  intros H. inversion H as [|c r Hc Hr]. discriminate Hc.
Qed.

(** ** C5: tokenizing twice *)

(** C5. Joining the tokens of a text with single spaces and tokenizing again
    gives the same tokens. In the static page's script this holds with its
    stop-word removal too, for a [toLowerCase] that maps [A-Z] to [a-z] on
    ASCII strings; in the React component for the word split with any
    minimal word length. *)
Theorem tokenize_idempotent :
  (forall (toLowerCase : jsstring -> jsstring) (text : jsstring),
      lowercases_ascii toLowerCase ->
      Main.tokenize toLowerCase (join space (Main.tokenize toLowerCase text))
      = Main.tokenize toLowerCase text)
  /\ (forall (minWordLength : nat) (text : jsstring),
      React.words minWordLength (join space (React.words minWordLength text))
      = React.words minWordLength text).
Proof.
  split.
  - intros toLowerCase text HL. apply tokenize_join; [assumption|].
    apply Forall_forall. intros w Hw. now apply tokenize_In in Hw.
  - apply words_join_words.
Qed.

Lemma tokenize_idempotent_witness :
  (lowercases_ascii toLowerCaseAscii
   /\ Main.tokenize toLowerCaseAscii
        (join space (Main.tokenize toLowerCaseAscii (lit "The cat's hat: see http://x.y")))
      = Main.tokenize toLowerCaseAscii (lit "The cat's hat: see http://x.y"))
  /\ React.words 3 (join space (React.words 3 (lit " it's a 2nd_rate film ")))
     = React.words 3 (lit " it's a 2nd_rate film ").
Proof.
  split; [split|].
  - intros s _. reflexivity.
  - apply (proj1 tokenize_idempotent toLowerCaseAscii). intros s _. reflexivity.
  - apply (proj2 tokenize_idempotent 3).
Defined.

(** ** C1: a row whose label is not recognised *)

Lemma filter_without {A} (f : A -> bool) (before after : list A) (x : A) :
  f x = false -> filter f (before ++ x :: after) = filter f (before ++ after).
Proof.
  intros H. rewrite !filter_app. simpl. now rewrite H.
Qed.

(** C1 as stated fails on the total: [computeMetrics] sets [total] to
    [rows.length], so the row labelled neutral is counted in it. *)
Lemma neutral_row_counts_in_total :
  Main.isPositive (Main.sentimentOf toLowerCaseAscii (row "meh" "neutral")) = false
  /\ Main.isNegative (Main.sentimentOf toLowerCaseAscii (row "meh" "neutral")) = false
  /\ Main.total (Main.result (Main.computeMetrics toLowerCaseAscii
                                [row "fine film" "positive"; row "meh" "neutral"]))
     <> Main.total (Main.result (Main.computeMetrics toLowerCaseAscii
                                   [row "fine film" "positive"])).
Proof.
  repeat split; try reflexivity. vm_compute. discriminate.
Qed.

(** C1, as the static page's script has it. A row whose lower-cased label is
    none of positive, pos, negative and neg leaves the two class counts, the
    two lists of class lengths, the two class averages and the two frequency
    tables as they are without it; [computeMetrics] returns its object all
    the same. The row does count in [total], and its token count is in
    [lengthsOverall]. *)
Theorem unrecognised_row_outside_classes (toLowerCase : jsstring -> jsstring)
    (before after : list Papa.Row) (r : Papa.Row) :
  Main.isPositive (Main.sentimentOf toLowerCase r) = false ->
  Main.isNegative (Main.sentimentOf toLowerCase r) = false ->
  let m := Main.computeMetrics toLowerCase (before ++ r :: after) in
  let m' := Main.computeMetrics toLowerCase (before ++ after) in
  Main.posCount (Main.result m) = Main.posCount (Main.result m')
  /\ Main.negCount (Main.result m) = Main.negCount (Main.result m')
  /\ Main.lengthsPos (Main.result m) = Main.lengthsPos (Main.result m')
  /\ Main.lengthsNeg (Main.result m) = Main.lengthsNeg (Main.result m')
  /\ Main.posFreq (Main.result m) = Main.posFreq (Main.result m')
  /\ Main.negFreq (Main.result m) = Main.negFreq (Main.result m')
  /\ Main.avgPos m = Main.avgPos m'
  /\ Main.avgNeg m = Main.avgNeg m'
  /\ Main.total (Main.result m) = S (Main.total (Main.result m'))
  /\ Main.lengthsOverall (Main.result m)
     = map (tokenCount toLowerCase) before
       ++ tokenCount toLowerCase r :: map (tokenCount toLowerCase) after.
Proof.
  intros Hp Hn m m'.
  assert (Hpos : positiveRow toLowerCase r = false) by exact Hp.
  assert (Hneg : negativeRow toLowerCase r = false)
    by (unfold negativeRow; rewrite Hn; apply andb_false_r).
  assert (Ea : Main.avgPos m = Main.avg (Main.lengthsPos (Main.result m))) by reflexivity.
  assert (Ea' : Main.avgPos m' = Main.avg (Main.lengthsPos (Main.result m'))) by reflexivity.
  assert (Eb : Main.avgNeg m = Main.avg (Main.lengthsNeg (Main.result m))) by reflexivity.
  assert (Eb' : Main.avgNeg m' = Main.avg (Main.lengthsNeg (Main.result m'))) by reflexivity.
  rewrite Ea, Ea', Eb, Eb'. subst m m'. rewrite !computeMetrics_result. simpl.
  rewrite !(filter_without _ before after r Hpos), !(filter_without _ before after r Hneg).
  repeat split; try reflexivity.
  - rewrite !length_app. simpl. lia.
  - now rewrite map_app.
Qed.

Lemma unrecognised_row_outside_classes_witness :
  Main.isPositive (Main.sentimentOf toLowerCaseAscii (row "meh" "neutral")) = false
  /\ Main.isNegative (Main.sentimentOf toLowerCaseAscii (row "meh" "neutral")) = false
  /\ Main.posFreq (Main.result (Main.computeMetrics toLowerCaseAscii
                      ([row "fine film" "pos"] ++ row "meh" "neutral" :: [])))
     = Main.posFreq (Main.result (Main.computeMetrics toLowerCaseAscii
                      ([row "fine film" "pos"] ++ [])))
  /\ Main.total (Main.result (Main.computeMetrics toLowerCaseAscii
                     ([row "fine film" "pos"] ++ row "meh" "neutral" :: [])))
     = S (Main.total (Main.result (Main.computeMetrics toLowerCaseAscii
                     ([row "fine film" "pos"] ++ [])))).
Proof.
  pose proof (unrecognised_row_outside_classes toLowerCaseAscii
                [row "fine film" "pos"] [] (row "meh" "neutral") eq_refl eq_refl) as H.
  split; [reflexivity|]. split; [reflexivity|]. split; apply H.
Defined.

(** ** C2: the sum of a table, and the vocabulary *)

(** C2 as stated fails on the first part: a table counts occurrences of
    tokens, so one positive review of two tokens makes the sum of the
    positive table two, with one positive review. *)
Lemma table_sum_exceeds_review_count :
  sumValues (Main.posFreq (Main.result
     (Main.computeMetrics toLowerCaseAscii [row "great movie" "positive"]))) = 2
  /\ Main.posCount (Main.result
     (Main.computeMetrics toLowerCaseAscii [row "great movie" "positive"])) = 1
  /\ ~ sumValues (Main.posFreq (Main.result
         (Main.computeMetrics toLowerCaseAscii [row "great movie" "positive"])))
       <= Main.posCount (Main.result
         (Main.computeMetrics toLowerCaseAscii [row "great movie" "positive"])).
Proof.
  vm_compute. repeat split. lia.
Qed.

Lemma allTokens_In (toLowerCase : jsstring -> jsstring) (rows : list Papa.Row) (x : jsstring) :
  In x (allTokens toLowerCase rows) <->
  exists r, In r rows /\ In x (tokensOf toLowerCase r).
Proof.
  unfold allTokens. rewrite in_concat. split.
  - intros [l [Hl Hx]]. apply in_map_iff in Hl as [r [<- Hr]]. now exists r.
  - intros [r [Hr Hx]]. exists (tokensOf toLowerCase r). split; [|assumption].
    now apply in_map.
Qed.

(** C2, as the static page's script has it. The values of a label's table
    add up to the number of tokens of that label's reviews, the sum of the
    label's list of lengths, which has one entry per review of the label;
    the vocabulary size is the number of distinct tokens of the reviews with
    a recognised label. *)
Theorem table_sums_and_vocabulary (toLowerCase : jsstring -> jsstring)
    (rows : list Papa.Row) :
  let m := Main.result (Main.computeMetrics toLowerCase rows) in
  sumValues (Main.posFreq m) = Main.sum (Main.lengthsPos m)
  /\ length (Main.lengthsPos m) = Main.posCount m
  /\ sumValues (Main.negFreq m) = Main.sum (Main.lengthsNeg m)
  /\ length (Main.lengthsNeg m) = Main.negCount m
  /\ vocabularySize (Main.posFreq m) (Main.negFreq m)
     = length (distinct (allTokens toLowerCase
                 (filter (fun r => positiveRow toLowerCase r || negativeRow toLowerCase r)
                         rows))).
Proof.
  intros m.
  pose proof (sumValues_posFreq toLowerCase rows) as Hp.
  pose proof (sumValues_negFreq toLowerCase rows) as Hn.
  fold m in Hp, Hn. subst m. rewrite Hp, Hn, !sum_list_sum.
  rewrite computeMetrics_result. simpl.
  split; [reflexivity|]. split; [apply length_map|].
  split; [reflexivity|]. split; [apply length_map|].
  unfold vocabularySize. apply distinct_length_same_elements.
  intros x. rewrite in_app_iff, !keys_countTokens, !distinct_In, !allTokens_In.
  split.
  - intros [[r [Hr Hx]]|[r [Hr Hx]]]; apply filter_In in Hr as [Hr Hf];
      exists r; (split; [|assumption]); apply filter_In; (split; [assumption|]);
      rewrite Hf; [reflexivity | apply orb_true_r].
  - intros [r [Hr Hx]]. apply filter_In in Hr as [Hr Hf].
    apply orb_prop in Hf as [Hf|Hf]; [left | right]; exists r;
      (split; [|assumption]); apply filter_In; now split.
Qed.

(** ** C6: the sum of a table and the tokens counted *)

(** In the static page's script the values of a label's table add up to the
    number of tokens that [tokenize] returns for the reviews of that label. *)
Lemma table_sum_is_token_count (toLowerCase : jsstring -> jsstring) (rows : list Papa.Row) :
  sumValues (Main.posFreq (Main.result (Main.computeMetrics toLowerCase rows)))
  = list_sum (map (tokenCount toLowerCase) (filter (positiveRow toLowerCase) rows))
  /\ sumValues (Main.negFreq (Main.result (Main.computeMetrics toLowerCase rows)))
     = list_sum (map (tokenCount toLowerCase) (filter (negativeRow toLowerCase) rows)).
Proof.
  split; [apply sumValues_posFreq | apply sumValues_negFreq].
Qed.

(** C6 in the React component, at a message whose only word names a property
    of [Object.prototype]: the word passes the length filter, and the table
    stays empty, so its totals add up to zero for one word. *)
Theorem constructor_is_not_counted :
  wordsOf 3 (message "constructor" "positive") = [lit "constructor"]
  /\ React.wordFrequency 3 [message "constructor" "positive"] = []
  /\ sumTotals (React.wordFrequency 3 [message "constructor" "positive"]) = 0
  /\ React.topWords (React.analyzeSentiment 3 [message "constructor" "positive"]) = [].
Proof.
  repeat split.
Qed.

(** ** C7: the average of an empty class *)

Lemma avg_finite (arr : list nat) : exists q, Main.avg arr = Finite q.
Proof.
  unfold Main.avg. destruct arr as [|x arr]; simpl; [now exists 0%Q|].
  unfold div. eexists. reflexivity.
Qed.

Lemma avgLength_finite (messages : list React.Message) :
  exists q, React.avgLength messages = Finite q.
Proof.
  unfold React.avgLength. destruct messages as [|x l]; simpl; [now exists 0%Q|].
  unfold div. eexists. reflexivity.
Qed.

(** C7. In both scripts the average of a class without reviews is the number
    zero: the division is behind a test of the count. The averages are never
    [NaN] nor [Infinity]. *)
Theorem average_of_empty_class (toLowerCase : jsstring -> jsstring)
    (rows : list Papa.Row) (appliedMinWordLength : nat) (messages : list React.Message) :
  let m := Main.computeMetrics toLowerCase rows in
  let s := React.analyzeSentiment appliedMinWordLength messages in
  (Main.posCount (Main.result m) = 0 -> Main.avgPos m = Finite 0)
  /\ (Main.negCount (Main.result m) = 0 -> Main.avgNeg m = Finite 0)
  /\ (Main.total (Main.result m) = 0 -> Main.avgOverall m = Finite 0)
  /\ (React.positiveCount s = 0 -> React.avgLengthPositive s = Finite 0)
  /\ (React.negativeCount s = 0 -> React.avgLengthNegative s = Finite 0)
  /\ (exists q, Main.avgPos m = Finite q) /\ (exists q, Main.avgNeg m = Finite q)
  /\ (exists q, Main.avgOverall m = Finite q)
  /\ (exists q, React.avgLengthPositive s = Finite q)
  /\ (exists q, React.avgLengthNegative s = Finite q).
Proof.
  intros m s.
  assert (Em : Main.result m = Main.result (Main.computeMetrics toLowerCase rows))
    by reflexivity.
  rewrite computeMetrics_result in Em.
  assert (Ep : Main.avgPos m = Main.avg (Main.lengthsPos (Main.result m))) by reflexivity.
  assert (En : Main.avgNeg m = Main.avg (Main.lengthsNeg (Main.result m))) by reflexivity.
  assert (Eo : Main.avgOverall m = Main.avg (Main.lengthsOverall (Main.result m)))
    by reflexivity.
  rewrite Ep, En, Eo, Em. simpl.
  repeat split; try apply avg_finite; try apply avgLength_finite.
  - intros H. apply length_zero_iff_nil in H. now rewrite H.
  - intros H. apply length_zero_iff_nil in H. now rewrite H.
  - intros H. apply length_zero_iff_nil in H. now rewrite H.
  - intros H. unfold React.avgLength. now rewrite H.
  - intros H. unfold React.avgLength. now rewrite H.
Qed.

Lemma average_of_empty_class_witness :
  Main.posCount (Main.result (Main.computeMetrics toLowerCaseAscii [row "dull" "negative"])) = 0
  /\ Main.avgPos (Main.computeMetrics toLowerCaseAscii [row "dull" "negative"]) = Finite 0
  /\ React.negativeCount (React.analyzeSentiment 3 [message "fine film" "positive"]) = 0
  /\ React.avgLengthNegative (React.analyzeSentiment 3 [message "fine film" "positive"])
     = Finite 0.
Proof.
  pose proof (average_of_empty_class toLowerCaseAscii [row "dull" "negative"]
                3 [message "fine film" "positive"]) as H.
  cbv zeta in H. destruct H as [H1 [_ [_ [_ [H5 _]]]]].
  split; [reflexivity|]. split; [apply H1; reflexivity|].
  split; [reflexivity|]. apply H5. reflexivity.
Defined.

(** ** C4: the top entries of a table *)

Lemma topEntries_spec (m : JsMap) (K : Z) :
  (0 <= K)%Z ->
  topOf snd (Z.to_nat K) m (Main.topEntries m K)
  /\ length (Main.topEntries m K) <= Z.to_nat K.
Proof.
  intros H. unfold Main.topEntries. rewrite slice0_nonneg by assumption.
  split; [apply topOf_sort_desc | apply firstn_le_length].
Qed.

Lemma topWords_spec (n : nat) (messages : list React.Message) :
  topOf React.total 20 (React.objectValues (React.wordFrequency n messages))
        (React.topWords (React.analyzeSentiment n messages))
  /\ length (React.topWords (React.analyzeSentiment n messages)) <= 20.
Proof.
  unfold React.analyzeSentiment. simpl React.topWords.
  rewrite slice0_nonneg by lia.
  split; [apply topOf_sort_desc | apply firstn_le_length].
Qed.

(** C4 as stated fails in the React component, whose table is an object: in
    [Object.values] a word that is an array index comes before the words
    made earlier, so of the two words of ["abc 100"], both counted once,
    the second is the first of [topWords]. It also fails in the static page's
    script for a negative count: [slice(0, -1)] drops the last entry only. *)
Lemma top_order_fails :
  map fst (React.wordFrequency 3 [message "abc 100" "positive"]) = [lit "abc"; lit "100"]
  /\ map React.word (React.topWords (React.analyzeSentiment 3 [message "abc 100" "positive"]))
     = [lit "100"; lit "abc"]
  /\ ~ topOf React.total 20
         (map snd (React.wordFrequency 3 [message "abc 100" "positive"]))
         (React.topWords (React.analyzeSentiment 3 [message "abc 100" "positive"]))
  /\ Main.topEntries [(lit "on", 1); (lit "cat", 3); (lit "sat", 3)] (-1)
     = [(lit "cat", 3); (lit "sat", 3)]
  /\ ~ (Z.of_nat (length (Main.topEntries
                            [(lit "on", 1%nat); (lit "cat", 3%nat); (lit "sat", 3%nat)]
                            (-1))) <= -1)%Z.
Proof.
  split; [reflexivity|]. split; [reflexivity|]. split.
  - intros [sorted [Hp [_ [Hst Hr]]]].
    specialize (Hst 1). apply Permutation_length in Hp.
    destruct sorted as [|a [|b [|c sorted]]]; try discriminate Hp.
    vm_compute in Hr. injection Hr as <- <-.
    vm_compute in Hst. discriminate Hst.
  - split; [reflexivity|]. vm_compute. intros H. now apply H.
Qed.

(** C4, as the two scripts have it. For a count [K] that is not negative,
    [topEntries] returns the first [K] entries of the table in descending
    order of count, entries of equal count in the order of the [Map], which
    is the order in which the tokens were first counted. [topWords] of the
    React component is the first 20 of [Object.values] of its table in
    descending order of total, ties in the order of [Object.values]: the
    words that are array indices in ascending numeric order, then the other
    words in the order they were made. *)
Theorem top_entries_order :
  (forall (m : JsMap) (K : Z), (0 <= K)%Z ->
      topOf snd (Z.to_nat K) m (Main.topEntries m K)
      /\ length (Main.topEntries m K) <= Z.to_nat K)
  /\ (forall ts : list jsstring, keys (Main.countTokens [] ts) = distinct ts)
  /\ (forall (n : nat) (messages : list React.Message),
      topOf React.total 20 (React.objectValues (React.wordFrequency n messages))
            (React.topWords (React.analyzeSentiment n messages))
      /\ length (React.topWords (React.analyzeSentiment n messages)) <= 20
      /\ map fst (React.wordFrequency n messages)
         = distinct (filter (fun w => negb (React.inherited w))
                            (concat (map (wordsOf n) messages)))
      /\ exists indexed,
           Permutation indexed (filter React.isIndex (React.wordFrequency n messages))
           /\ StronglySorted (fun a b => (React.indexOf a <= React.indexOf b)%N) indexed
           /\ React.objectValues (React.wordFrequency n messages)
              = map snd (indexed ++ filter (fun e => negb (React.isIndex e))
                                           (React.wordFrequency n messages))).
Proof.
  split; [exact topEntries_spec|]. split; [exact keys_countTokens|].
  intros n messages. destruct (topWords_spec n messages) as [H1 H2].
  split; [exact H1|]. split; [exact H2|]. split; [apply wordFrequency_keys|].
  apply objectValues_order.
Qed.

Lemma top_entries_order_witness :
  (0 <= 2)%Z
  /\ topOf snd (Z.to_nat 2) [(lit "on", 1); (lit "cat", 3); (lit "sat", 3)]
           (Main.topEntries [(lit "on", 1); (lit "cat", 3); (lit "sat", 3)] 2)
  /\ Main.topEntries [(lit "on", 1); (lit "cat", 3); (lit "sat", 3)] 2
     = [(lit "cat", 3); (lit "sat", 3)].
Proof.
  split; [lia|]. split; [|reflexivity].
  apply (proj1 top_entries_order [(lit "on", 1); (lit "cat", 3); (lit "sat", 3)] 2%Z). lia.
Defined.

(** ** C9: the columns read and the labels recognised *)

(** C9 as stated fails in the React component: [loadData] reads the columns
    review and sentiment only, so a row that has its text and its label
    under the other names is dropped; and [analyzeSentiment] counts the label
    positive only, not pos. *)
Lemma react_reads_no_alias :
  firstPresent [Papa.review (aliasRow "good film" "pos");
                Papa.text (aliasRow "good film" "pos");
                Papa.content (aliasRow "good film" "pos")] = Some (lit "good film")
  /\ firstPresent [Papa.sentiment (aliasRow "good film" "pos");
                   Papa.label (aliasRow "good film" "pos")] = Some (lit "pos")
  /\ React.loadData toLowerCaseAscii [aliasRow "good film" "pos"] = []
  /\ React.positiveCount
       (React.analyzeSentiment 3 (React.loadData toLowerCaseAscii [row "good film" "pos"]))
     = 0.
Proof.
  repeat split.
Qed.

Lemma isPositive_iff (s : jsstring) :
  Main.isPositive s = true <-> s = lit "positive" \/ s = lit "pos".
Proof.
  unfold Main.isPositive. rewrite orb_true_iff, !streq_true. reflexivity.
Qed.

Lemma isNegative_iff (s : jsstring) :
  Main.isNegative s = true <-> s = lit "negative" \/ s = lit "neg".
Proof.
  unfold Main.isNegative. rewrite orb_true_iff, !streq_true. reflexivity.
Qed.

Lemma nullish_firstPresent2 (a b : option jsstring) :
  nullish a b = firstPresent [a; b].
Proof. destruct a, b; reflexivity. Qed.

Lemma nullish_firstPresent3 (a b c : option jsstring) :
  nullish a (nullish b c) = firstPresent [a; b; c].
Proof. destruct a, b, c; reflexivity. Qed.

(** C9, as the two scripts have it. In the static page's script the review
    is the first column present among review, text and content and the label
    the first present among sentiment and label, in [parseCsvText] and in
    [computeMetrics] alike; a row counts as positive when its lower-cased
    label is positive or pos, as negative when it is negative or neg, and in
    neither class otherwise. The React component reads the columns review
    and sentiment only, and counts as positive the label positive and as
    negative the label negative, nothing else. *)
Theorem columns_and_labels (toLowerCase : jsstring -> jsstring) (r : Papa.Row) :
  let review := firstPresent [Papa.review r; Papa.text r; Papa.content r] in
  let label := firstPresent [Papa.sentiment r; Papa.label r] in
  Papa.review (Main.normalizeRow r) = review
  /\ Papa.sentiment (Main.normalizeRow r) = label
  /\ Main.usable (Main.normalizeRow r) = truthy review && truthy label
  /\ Main.reviewOf r = str review
  /\ Main.reviewOf (Main.normalizeRow r) = str review
  /\ Main.sentimentOf toLowerCase r = toLowerCase (str label)
  /\ Main.sentimentOf toLowerCase (Main.normalizeRow r) = toLowerCase (str label)
  /\ (positiveRow toLowerCase r = true <->
      toLowerCase (str label) = lit "positive" \/ toLowerCase (str label) = lit "pos")
  /\ (negativeRow toLowerCase r = true <->
      toLowerCase (str label) = lit "negative" \/ toLowerCase (str label) = lit "neg")
  /\ (forall rows : list Papa.Row,
        Main.posCount (Main.result (Main.computeMetrics toLowerCase rows))
        = length (filter (positiveRow toLowerCase) rows)
        /\ Main.negCount (Main.result (Main.computeMetrics toLowerCase rows))
           = length (filter (negativeRow toLowerCase) rows))
  /\ React.loadData toLowerCase [r]
     = (if truthy (Papa.review r) && truthy (Papa.sentiment r)
        then [{| React.text := toLowerCase (str (Papa.review r));
                 React.sentiment := toLowerCase (str (Papa.sentiment r)) |}]
        else [])
  /\ (forall (n : nat) (messages : list React.Message),
        React.positiveCount (React.analyzeSentiment n messages)
        = length (filter (fun msg => streq (React.sentiment msg) (lit "positive")) messages)
        /\ React.negativeCount (React.analyzeSentiment n messages)
           = length (filter (fun msg => streq (React.sentiment msg) (lit "negative")) messages)).
Proof.
  intros review label.
  assert (Er : Main.reviewOf r = str review).
  { unfold Main.reviewOf. now rewrite nullish_firstPresent3. }
  assert (Es : Main.sentimentOf toLowerCase r = toLowerCase (str label)).
  { unfold Main.sentimentOf. now rewrite nullish_firstPresent2. }
  assert (En : Main.normalizeRow r = {|
            Papa.review := review; Papa.text := None; Papa.content := None;
            Papa.sentiment := label; Papa.label := None |}).
  { unfold Main.normalizeRow. now rewrite nullish_firstPresent3, nullish_firstPresent2. }
  split; [now rewrite En|]. split; [now rewrite En|]. split; [now rewrite En|].
  split; [exact Er|].
  split; [rewrite En; unfold Main.reviewOf; simpl; now destruct review|].
  split; [exact Es|].
  split; [rewrite En; unfold Main.sentimentOf; simpl; now destruct label|].
  split; [unfold positiveRow; rewrite Es; apply isPositive_iff|].
  split.
  { unfold negativeRow. rewrite Es, andb_true_iff, negb_true_iff, isNegative_iff.
    split; [tauto|]. intros H. split; [|assumption].
    destruct H as [H|H]; rewrite H; reflexivity. }
  split.
  { intros rows. rewrite computeMetrics_result. simpl. split; reflexivity. }
  split.
  { unfold React.loadData. simpl.
    destruct (truthy (Papa.review r) && truthy (Papa.sentiment r)); reflexivity. }
  intros n messages. split; reflexivity.
Qed.

Lemma columns_and_labels_witness :
  Main.reviewOf (aliasRow "good film" "POS") = lit "good film"
  /\ positiveRow toLowerCaseAscii (aliasRow "good film" "POS") = true
  /\ Main.parseCsvText [aliasRow "good film" "POS"]
     = Some [{| Papa.review := Some (lit "good film"); Papa.text := None;
                Papa.content := None; Papa.sentiment := Some (lit "POS");
                Papa.label := None |}].
Proof.
  pose proof (columns_and_labels toLowerCaseAscii (aliasRow "good film" "POS")) as H.
  cbv zeta in H. destruct H as [_ [_ [_ [H4 [_ [_ [_ [H8 _]]]]]]]].
  split; [exact H4|]. split; [|reflexivity].
  apply H8. right. reflexivity.
Defined.

(** ** C8: the log-odds score *)

(** C8. With a smoothing constant above zero, and a frequency that does not
    exceed the total of its class, the score is strictly greater at a greater
    positive frequency, the negative frequency and the two totals being the
    same. *)
Theorem logOdds_increasing (alpha : R)
    (freqPos freqPos' totalPosTokens freqNeg totalNegTokens : nat) :
  (0 < alpha)%R -> freqPos < freqPos' -> freqPos' <= totalPosTokens ->
  (LogOdds.logOdds alpha freqPos totalPosTokens freqNeg totalNegTokens
   < LogOdds.logOdds alpha freqPos' totalPosTokens freqNeg totalNegTokens)%R.
Proof.
  intros Ha Hlt Hle. unfold LogOdds.logOdds. cbv zeta.
  apply Rplus_lt_compat_r.
  pose proof (pos_INR freqPos) as H0.
  pose proof (lt_INR _ _ Hlt) as H1.
  pose proof (le_INR _ _ Hle) as H2.
  assert (Hb' : (0 < INR totalPosTokens - INR freqPos' + alpha)%R) by lra.
  assert (Hb : (0 < INR totalPosTokens - INR freqPos + alpha)%R) by lra.
  apply ln_increasing.
  - apply Rdiv_lt_0_compat; lra.
  - apply Rlt_le_trans
      with ((INR freqPos' + alpha) / (INR totalPosTokens - INR freqPos + alpha))%R.
    + apply Rmult_lt_compat_r; [now apply Rinv_0_lt_compat | lra].
    + apply Rmult_le_compat_l; [lra|].
      apply Rinv_le_contravar; lra.
Qed.

Lemma logOdds_increasing_witness :
  (0 < / 2)%R /\ 1 < 2 /\ 2 <= 3
  /\ (LogOdds.logOdds (/ 2) 1 3 0 3 < LogOdds.logOdds (/ 2) 2 3 0 3)%R.
Proof.
  split; [lra|]. split; [lia|]. split; [lia|].
  apply logOdds_increasing; [lra | lia | lia].
Defined.

(** * Further properties of the two scripts *)

(** ** The shape of a sanitized text *)

Lemma sanitizeText_shape (toLowerCase : jsstring -> jsstring) (text : jsstring) :
  exists ws,
    Forall (fun w => w <> [] /\ alphabetic w) ws
    /\ Main.sanitizeText toLowerCase text = join space ws.
Proof.
  pose proof (sanitizeText_class toLowerCase text) as Hclass.
  destruct text as [|c0 text']; [exists []; split; [constructor | reflexivity]|].
  unfold Main.sanitizeText in *. unfold Main.collapseSpaces in *.
  destruct (collapse_shape
              (Main.replaceNonLetters (Main.stripUrls (toLowerCase (c0 :: text')))) false)
    as [lead [ws [trail [E [Hws [Hl Ht]]]]]].
  rewrite E in *.
  assert (Et : trim (lead ++ join space ws ++ trail) = join space ws).
  { apply trim_padded_join; [assumption | tauto | tauto]. }
  rewrite Et in *. exists ws. split; [|reflexivity].
  apply Forall_forall. intros w Hw. rewrite Forall_forall in Hws.
  destruct (Hws w Hw) as [Hne Hsolid]. split; [assumption|].
  apply Forall_forall. intros c Hc.
  rewrite Forall_forall in Hclass. rewrite Forall_forall in Hsolid.
  destruct (Hclass c (join_In ws w c Hw Hc)) as [Hlow| ->]; [assumption|].
  specialize (Hsolid _ Hc). discriminate.
Qed.

(** X1. The text [sanitizeText] returns is a list of words of letters [a-z],
    none empty, joined by single spaces, and [tokenize] returns those words
    without the stop words, in their order: the test [w &&] of its filter
    never drops anything. *)
Theorem sanitized_text_is_words (toLowerCase : jsstring -> jsstring) (text : jsstring) :
  exists ws,
    Forall (fun w => w <> [] /\ alphabetic w) ws
    /\ Main.sanitizeText toLowerCase text = join space ws
    /\ Main.tokenize toLowerCase text = filter (fun w => negb (Main.isStopword w)) ws.
Proof.
  destruct (sanitizeText_shape toLowerCase text) as [ws [Hws E]].
  exists ws. split; [assumption|]. split; [assumption|].
  destruct ws as [|w ws'].
  - unfold Main.tokenize. rewrite E. reflexivity.
  - assert (Hsolid : Forall solid (w :: ws')).
    { eapply Forall_impl; [|exact Hws]. intros x [Hx Ha]. now apply alphabetic_solid. }
    destruct (join_solid_head (w :: ws')) as [c [r [Ej Hc]]]; [discriminate | assumption|].
    rewrite tokenize_nonempty by (rewrite E, Ej; discriminate).
    rewrite E, split_join_solid by (discriminate || assumption).
    apply filter_ext_in. intros x Hx. rewrite Forall_forall in Hws.
    destruct (Hws x Hx) as [Hne _]. apply streq_false in Hne. now rewrite Hne.
Qed.

Lemma sanitizeText_join (toLowerCase : jsstring -> jsstring) (ws : list jsstring) :
  lowercases_ascii toLowerCase ->
  Forall (fun w => w <> [] /\ alphabetic w) ws ->
  Main.sanitizeText toLowerCase (join space ws) = join space ws.
Proof.
  intros HL H. destruct ws as [|w ws']; [reflexivity|].
  assert (Hsolid : Forall solid (w :: ws')).
  { eapply Forall_impl; [|exact H]. intros x [Hx Ha]. now apply alphabetic_solid. }
  assert (Hclass : Forall (fun c => is_lower c = true \/ c = space) (join space (w :: ws'))).
  { apply join_class; [now right|].
    eapply Forall_impl; [|exact H]. intros x [_ Ha].
    eapply Forall_impl; [|exact Ha]. intros c Hc. now left. }
  destruct (join_solid_head (w :: ws')) as [c [r [E Hc]]]; [discriminate | assumption|].
  rewrite sanitizeText_nonempty by (rewrite E; discriminate).
  rewrite (toLowerCase_letters _ _ HL Hclass).
  rewrite stripUrls_no_colon.
  - rewrite (replaceNonLetters_id _ Hclass), (collapse_join_solid _ Hsolid).
    apply trim_join_solid, Hsolid.
  - intros Hin. rewrite Forall_forall in Hclass.
    apply Hclass, lower_or_space_ascii in Hin. now destruct Hin as [_ [_ Hin]].
Qed.

(** X2. Sanitizing a sanitized text changes nothing, for a [toLowerCase] that
    maps [A-Z] to [a-z] on ASCII strings. *)
Theorem sanitizeText_idempotent (toLowerCase : jsstring -> jsstring) (text : jsstring) :
  lowercases_ascii toLowerCase ->
  Main.sanitizeText toLowerCase (Main.sanitizeText toLowerCase text)
  = Main.sanitizeText toLowerCase text.
Proof.
  intros HL. destruct (sanitizeText_shape toLowerCase text) as [ws [Hws E]].
  rewrite E. now apply sanitizeText_join.
Qed.

Lemma sanitizeText_idempotent_witness :
  lowercases_ascii toLowerCaseAscii
  /\ Main.sanitizeText toLowerCaseAscii
       (Main.sanitizeText toLowerCaseAscii (lit "  Visit https://x.y NOW!!  3rd_time "))
     = Main.sanitizeText toLowerCaseAscii (lit "  Visit https://x.y NOW!!  3rd_time ").
Proof.
  split; [intros s _; reflexivity|].
  apply sanitizeText_idempotent. intros s _. reflexivity.
Defined.

(** ** Where the letters of a sanitized text come from *)

Lemma stripUrls_In (in_url : bool) (s : jsstring) (c : codeunit) :
  In c (Main.stripUrls_from in_url s) -> In c s \/ c = space.
Proof.
  revert in_url. induction s as [|d r IH]; intros in_url H; [destruct H|].
  simpl in H. destruct in_url.
  - destruct (is_space d).
    + destruct H as [<-|H]; [left; now left|].
      destruct (IH _ H); [left; now right | now right].
    + destruct (IH _ H); [left; now right | now right].
  - destruct (Main.url_at (d :: r)).
    + destruct H as [<-|H]; [now right|].
      destruct (IH _ H); [left; now right | now right].
    + destruct H as [<-|H]; [left; now left|].
      destruct (IH _ H); [left; now right | now right].
Qed.

Lemma collapse_In (in_run : bool) (s : jsstring) (c : codeunit) :
  In c (Main.collapse_from in_run s) -> In c s \/ c = space.
Proof.
  revert in_run. induction s as [|d r IH]; intros in_run H; [destruct H|].
  simpl in H. destruct (is_space d).
  - destruct in_run.
    + destruct (IH _ H); [left; now right | now right].
    + destruct H as [<-|H]; [now right|].
      destruct (IH _ H); [left; now right | now right].
  - destruct H as [<-|H]; [left; now left|].
    destruct (IH _ H); [left; now right | now right].
Qed.

Lemma trimStart_In (s : jsstring) (c : codeunit) : In c (trimStart s) -> In c s.
Proof.
  induction s as [|d r IH]; intros H; [destruct H|].
  simpl in H. destruct (is_space d); [right; now apply IH | exact H].
Qed.

Lemma trim_In (s : jsstring) (c : codeunit) : In c (trim s) -> In c s.
Proof.
  unfold trim. intros H.
  apply in_rev, trimStart_In, in_rev, trimStart_In in H. exact H.
Qed.

Lemma sanitizeText_letter (toLowerCase : jsstring -> jsstring) (text : jsstring)
    (c : codeunit) :
  In c (Main.sanitizeText toLowerCase text) -> is_lower c = true ->
  In c (toLowerCase text).
Proof.
  unfold Main.sanitizeText. destruct text as [|c0 text']; [intros []|].
  intros H Hl. apply trim_In in H.
  assert (Hns : c <> space) by (intros ->; discriminate).
  apply collapse_In in H as [H|H]; [|contradiction].
  unfold Main.replaceNonLetters in H. apply in_map_iff in H as [d [Ed Hd]].
  assert (d = c).
  { destruct (is_lower d || is_space d); [exact Ed | now subst c]. }
  subst d. apply stripUrls_In in Hd as [Hd|Hd]; [exact Hd | contradiction].
Qed.

(** X3. A text that holds no letter [a-z] once in lower case is sanitized to the
    empty string and has no token. *)
Theorem text_without_letters (toLowerCase : jsstring -> jsstring) (text : jsstring) :
  (forall c, In c (toLowerCase text) -> is_lower c = false) ->
  Main.sanitizeText toLowerCase text = [] /\ Main.tokenize toLowerCase text = [].
Proof.
  intros H.
  assert (E : Main.sanitizeText toLowerCase text = []).
  { destruct (sanitizeText_shape toLowerCase text) as [ws [Hws E]].
    destruct ws as [|w ws']; [exact E|]. exfalso.
    inversion Hws as [|? ? [Hne Ha] _]; subst.
    destruct w as [|c w']; [congruence|]. inversion Ha as [|? ? Hc _]; subst.
    assert (Hin : In c (Main.sanitizeText toLowerCase text)).
    { rewrite E. apply (join_In _ (c :: w')); now left. }
    apply (sanitizeText_letter _ _ _ Hin) in Hc as Horigin.
    rewrite (H c Horigin) in Hc. discriminate. }
  split; [exact E|]. unfold Main.tokenize. now rewrite E.
Qed.

Lemma text_without_letters_witness :
  (forall c, In c (toLowerCaseAscii (lit "2010: 9/10 !!")) -> is_lower c = false)
  /\ Main.tokenize toLowerCaseAscii (lit "2010: 9/10 !!") = [].
Proof.
  assert (H : forall c, In c (toLowerCaseAscii (lit "2010: 9/10 !!")) -> is_lower c = false).
  { intros c Hc. vm_compute in Hc.
    repeat (destruct Hc as [<-|Hc]; [reflexivity|]). destruct Hc. }
  split; [exact H|].
  apply (text_without_letters toLowerCaseAscii (lit "2010: 9/10 !!") H).
Defined.

(** ** What a frequency table holds *)

Lemma map_get_set (m : JsMap) (k k' : jsstring) (v : nat) :
  map_get (map_set m k v) k' = if streq k k' then Some v else map_get m k'.
Proof.
  induction m as [|[k0 v0] m IH]; simpl; [reflexivity|].
  destruct (streq k0 k) eqn:E0; simpl.
  - apply streq_true in E0. subst k0. now destruct (streq k k').
  - rewrite IH. destruct (streq k0 k') eqn:E1; [|reflexivity].
    apply streq_true in E1. subst k0. now rewrite (streq_sym k k'), E0.
Qed.

Lemma map_get_countTokens (ts : list jsstring) (m : JsMap) (t : jsstring) :
  map_get (Main.countTokens m ts) t
  = if count_occ jsstring_eq_dec ts t =? 0 then map_get m t
    else Some (or0 (map_get m t) + count_occ jsstring_eq_dec ts t).
Proof.
  unfold Main.countTokens. revert m. induction ts as [|x ts IH]; intros m; [reflexivity|].
  simpl fold_left. rewrite IH, map_get_set. simpl count_occ.
  destruct (jsstring_eq_dec x t) as [->|Hne].
  - rewrite streq_refl. simpl.
    destruct (count_occ jsstring_eq_dec ts t =? 0) eqn:E.
    + apply Nat.eqb_eq in E. rewrite E. f_equal; lia.
    + f_equal; lia.
  - apply streq_false in Hne. rewrite Hne. reflexivity.
Qed.

(** X5. The value a table of [computeMetrics] holds for a token is the number of
    times [tokenize] returned it for the reviews of the label, and the table
    has no entry for a token that it never returned. *)
Theorem table_holds_occurrences (toLowerCase : jsstring -> jsstring)
    (rows : list Papa.Row) (t : jsstring) :
  let m := Main.result (Main.computeMetrics toLowerCase rows) in
  let positives :=
    count_occ jsstring_eq_dec
              (allTokens toLowerCase (filter (positiveRow toLowerCase) rows)) t in
  let negatives :=
    count_occ jsstring_eq_dec
              (allTokens toLowerCase (filter (negativeRow toLowerCase) rows)) t in
  map_get (Main.posFreq m) t = (if positives =? 0 then None else Some positives)
  /\ map_get (Main.negFreq m) t = (if negatives =? 0 then None else Some negatives).
Proof.
  intros m positives negatives. subst m. rewrite computeMetrics_result. simpl.
  rewrite !map_get_countTokens. fold positives negatives. split; reflexivity.
Qed.

(** ** The counts of [computeMetrics] *)

Lemma filter_three {A} (p q : A -> bool) (l : list A) :
  (forall x, p x = true -> q x = false) ->
  length l = length (filter p l) + length (filter q l)
             + length (filter (fun x => negb (p x) && negb (q x)) l).
Proof.
  intros H. induction l as [|x l IH]; simpl; [reflexivity|].
  destruct (p x) eqn:Ep; simpl.
  - rewrite (H x Ep). simpl. lia.
  - destruct (q x); simpl; lia.
Qed.

(** X6. [total] is the number of rows: the positive ones, the negative ones and
    those with a label that is neither; [lengthsOverall] has one entry for
    each of them. *)
Theorem total_is_three_kinds (toLowerCase : jsstring -> jsstring) (rows : list Papa.Row) :
  let m := Main.result (Main.computeMetrics toLowerCase rows) in
  Main.total m
  = Main.posCount m + Main.negCount m
    + length (filter (fun r => negb (positiveRow toLowerCase r)
                               && negb (negativeRow toLowerCase r)) rows)
  /\ length (Main.lengthsOverall m) = Main.total m
  /\ Main.posCount m + Main.negCount m <= Main.total m.
Proof.
  intros m. subst m. rewrite computeMetrics_result. simpl.
  assert (H : forall r, positiveRow toLowerCase r = true ->
                        negativeRow toLowerCase r = false).
  { intros r Hr. unfold negativeRow. unfold positiveRow in Hr. now rewrite Hr. }
  pose proof (filter_three _ _ rows H) as E.
  split; [exact E|]. split; [apply length_map | lia].
Qed.

(** ** From [parseCsvText] to [computeMetrics] *)

Lemma reviewOf_normalizeRow (r : Papa.Row) :
  Main.reviewOf (Main.normalizeRow r) = Main.reviewOf r.
Proof.
  unfold Main.reviewOf, Main.normalizeRow. simpl.
  destruct (Papa.review r), (Papa.text r), (Papa.content r); reflexivity.
Qed.

Lemma sentimentOf_normalizeRow (toLowerCase : jsstring -> jsstring) (r : Papa.Row) :
  Main.sentimentOf toLowerCase (Main.normalizeRow r) = Main.sentimentOf toLowerCase r.
Proof.
  unfold Main.sentimentOf, Main.normalizeRow. simpl.
  destruct (Papa.sentiment r), (Papa.label r); reflexivity.
Qed.

Lemma addRow_normalizeRow (toLowerCase : jsstring -> jsstring)
    (res : Main.Result) (r : Papa.Row) :
  Main.addRow toLowerCase res (Main.normalizeRow r) = Main.addRow toLowerCase res r.
Proof.
  unfold Main.addRow. now rewrite reviewOf_normalizeRow, sentimentOf_normalizeRow.
Qed.

Lemma computeMetrics_normalizeRow (toLowerCase : jsstring -> jsstring)
    (rows : list Papa.Row) :
  Main.computeMetrics toLowerCase (map Main.normalizeRow rows)
  = Main.computeMetrics toLowerCase rows.
Proof.
  unfold Main.computeMetrics. rewrite length_map.
  assert (E : forall init,
             fold_left (Main.addRow toLowerCase) (map Main.normalizeRow rows) init
             = fold_left (Main.addRow toLowerCase) rows init).
  { induction rows as [|r rows IH]; intros init; simpl; [reflexivity|].
    now rewrite addRow_normalizeRow, IH. }
  now rewrite E.
Qed.

Lemma filter_map_commute {A B} (f : B -> bool) (g : A -> B) (l : list A) :
  filter f (map g l) = map g (filter (fun x => f (g x)) l).
Proof.
  induction l as [|x l IH]; simpl; [reflexivity|].
  destruct (f (g x)); simpl; now rewrite IH.
Qed.

(** X8. The metrics of the rows that [parseCsvText] hands over are those of the
    parsed rows that have a review and a label, under whichever of the
    column names: reducing a row to its two resolved columns loses nothing
    that [computeMetrics] reads. *)
Theorem metrics_of_parsed_rows (toLowerCase : jsstring -> jsstring)
    (data rows : list Papa.Row) :
  Main.parseCsvText data = Some rows ->
  Main.computeMetrics toLowerCase rows
  = Main.computeMetrics toLowerCase
      (filter (fun r =>
                 truthy (firstPresent [Papa.review r; Papa.text r; Papa.content r])
                 && truthy (firstPresent [Papa.sentiment r; Papa.label r]))
              data).
Proof.
  unfold Main.parseCsvText. intros H.
  assert (E : rows = filter Main.usable (map Main.normalizeRow data)).
  { destruct (filter Main.usable (map Main.normalizeRow data)); [discriminate|].
    now inversion H. }
  rewrite E, filter_map_commute, computeMetrics_normalizeRow. f_equal.
  apply filter_ext. intros r. unfold Main.usable, Main.normalizeRow. simpl.
  now rewrite nullish_firstPresent3, nullish_firstPresent2.
Qed.

Lemma metrics_of_parsed_rows_witness :
  Main.parseCsvText [aliasRow "good film" "pos"; aliasRow "" "neg"]
  = Some [Main.normalizeRow (aliasRow "good film" "pos")]
  /\ Main.computeMetrics toLowerCaseAscii [Main.normalizeRow (aliasRow "good film" "pos")]
     = Main.computeMetrics toLowerCaseAscii
         (filter (fun r =>
                    truthy (firstPresent [Papa.review r; Papa.text r; Papa.content r])
                    && truthy (firstPresent [Papa.sentiment r; Papa.label r]))
                 [aliasRow "good film" "pos"; aliasRow "" "neg"]).
Proof.
  split; [reflexivity|].
  apply (metrics_of_parsed_rows toLowerCaseAscii
           [aliasRow "good film" "pos"; aliasRow "" "neg"]).
  reflexivity.
Defined.

(** X9. [parseCsvText] reports no usable row exactly when every row lacks a review
    or a label; the rows it hands over otherwise are at least one, no more
    than the parsed ones, and each has a review and a label that are not
    empty. *)
Theorem parseCsvText_rows (data : list Papa.Row) :
  (Main.parseCsvText data = None <->
   forall r, In r data -> Main.usable (Main.normalizeRow r) = false)
  /\ (forall rows, Main.parseCsvText data = Some rows ->
        rows <> [] /\ length rows <= length data
        /\ forall r, In r rows ->
             exists review label,
               Papa.review r = Some review /\ review <> []
               /\ Papa.sentiment r = Some label /\ label <> []
               /\ Main.reviewOf r = review).
Proof.
  unfold Main.parseCsvText. split.
  - destruct (filter Main.usable (map Main.normalizeRow data)) as [|x l] eqn:E.
    + split; [|reflexivity]. intros _ r Hr.
      destruct (Main.usable (Main.normalizeRow r)) eqn:Eu; [|reflexivity].
      assert (Hin : In (Main.normalizeRow r) []).
      { rewrite <- E. apply filter_In. split; [now apply in_map | exact Eu]. }
      destruct Hin.
    + split; [discriminate|]. intros H. exfalso.
      assert (Hx : In x (filter Main.usable (map Main.normalizeRow data)))
        by (rewrite E; now left).
      apply filter_In in Hx as [Hx Hu]. apply in_map_iff in Hx as [r [<- Hr]].
      rewrite (H r Hr) in Hu. discriminate.
  - intros rows H.
    assert (E : rows = filter Main.usable (map Main.normalizeRow data)
                /\ rows <> []).
    { destruct (filter Main.usable (map Main.normalizeRow data)); [discriminate|].
      inversion H. split; [reflexivity | discriminate]. }
    destruct E as [E Hne]. split; [exact Hne|]. split.
    + rewrite E, <- (length_map Main.normalizeRow data). apply filter_length_le.
    + intros r Hr. rewrite E in Hr. apply filter_In in Hr as [_ Hu].
      unfold Main.usable in Hu. apply andb_prop in Hu as [H1 H2].
      unfold Main.reviewOf.
      destruct (Papa.review r) as [[|c t]|]; try discriminate.
      destruct (Papa.sentiment r) as [[|d s]|]; try discriminate.
      exists (c :: t), (d :: s). repeat split; discriminate || reflexivity.
Qed.

Lemma parseCsvText_rows_witness :
  Main.parseCsvText [aliasRow "" "pos"; row "fine" ""] = None
  /\ (forall r, In r [aliasRow "" "pos"; row "fine" ""] ->
        Main.usable (Main.normalizeRow r) = false).
Proof.
  split; [reflexivity|].
  apply (proj1 (parseCsvText_rows [aliasRow "" "pos"; row "fine" ""])). reflexivity.
Defined.

(** ** The entries [topEntries] keeps *)

Lemma StronglySorted_app_between {A} (R : A -> A -> Prop) (a b : list A) :
  StronglySorted R (a ++ b) -> forall x y, In x a -> In y b -> R x y.
Proof.
  induction a as [|z a IH]; intros H x y Hx Hy; [destruct Hx|].
  simpl in H. inversion H as [|? ? Hs Hall]; subst.
  destruct Hx as [->|Hx].
  - rewrite Forall_forall in Hall. apply Hall, in_or_app. now right.
  - now apply IH.
Qed.

Lemma firstn_largest {A} (key : A -> nat) (K : nat) (l : list A) (x y : A) :
  In x (firstn K (sort_desc key l)) -> In y l ->
  In y (firstn K (sort_desc key l)) \/ key y <= key x.
Proof.
  intros Hx Hy.
  assert (Hy' : In y (sort_desc key l)).
  { eapply Permutation_in; [symmetry; apply sort_desc_perm | exact Hy]. }
  rewrite <- (firstn_skipn K (sort_desc key l)) in Hy'.
  apply in_app_or in Hy' as [Hy'|Hy']; [now left|]. right.
  pose proof (sort_desc_sorted key l) as Hs.
  rewrite <- (firstn_skipn K (sort_desc key l)) in Hs.
  exact (StronglySorted_app_between _ _ _ Hs x y Hx Hy').
Qed.

Lemma firstn_member {A} (n : nat) (l : list A) (x : A) : In x (firstn n l) -> In x l.
Proof.
  intros H. rewrite <- (firstn_skipn n l). apply in_or_app. now left.
Qed.

Lemma slice0_In {A} (n : Z) (arr : list A) (x : A) : In x (slice0 n arr) -> In x arr.
Proof.
  unfold slice0. destruct (n <? 0)%Z; apply firstn_member.
Qed.

(** X10. Every entry [topEntries] returns is an entry of the table, and for a
    count that is not negative no entry it leaves out has a greater count
    than one it returns. *)
Theorem top_entries_are_largest (m : JsMap) (K : Z) (x y : jsstring * nat) :
  In x (Main.topEntries m K) ->
  In x m
  /\ ((0 <= K)%Z -> In y m -> In y (Main.topEntries m K) \/ snd y <= snd x).
Proof.
  unfold Main.topEntries. intros Hx. split.
  - apply slice0_In in Hx.
    eapply Permutation_in; [apply sort_desc_perm | exact Hx].
  - intros HK Hy. rewrite slice0_nonneg in * by assumption.
    now apply firstn_largest.
Qed.

Lemma top_entries_are_largest_witness :
  In (lit "cat", 3) (Main.topEntries [(lit "on", 1); (lit "cat", 3); (lit "sat", 2)] 2)
  /\ (In (lit "on", 1) (Main.topEntries [(lit "on", 1); (lit "cat", 3); (lit "sat", 2)] 2)
      \/ snd (lit "on", 1) <= snd (lit "cat", 3)).
Proof.
  assert (H : In (lit "cat", 3)
                 (Main.topEntries [(lit "on", 1); (lit "cat", 3); (lit "sat", 2)] 2))
    by (vm_compute; left; reflexivity).
  split; [exact H|].
  apply (proj2 (top_entries_are_largest _ 2%Z _ (lit "on", 1) H)); [lia|].
  left. reflexivity.
Defined.

(** X11. The number of entries [topEntries] returns, for every integer: the count
    or the size of the table, whichever is less, and for a negative count the
    size of the table less that many. With a count of at least the size, all
    the entries are returned. *)
Theorem top_entries_length (m : JsMap) (n : Z) :
  length (Main.topEntries m n)
  = (if (n <? 0)%Z then length m - Z.to_nat (- n) else Nat.min (Z.to_nat n) (length m))
  /\ ((Z.of_nat (length m) <= n)%Z -> Permutation (Main.topEntries m n) m).
Proof.
  unfold Main.topEntries, slice0.
  pose proof (Permutation_length (sort_desc_perm snd m)) as El.
  split.
  - destruct (Z.ltb_spec n 0); rewrite length_firstn, El; lia.
  - intros H. destruct (Z.ltb_spec n 0); [lia|].
    rewrite firstn_all2 by lia. apply sort_desc_perm.
Qed.

Lemma top_entries_length_witness :
  (Z.of_nat (length [(lit "on", 1%nat); (lit "cat", 3%nat)]) <= 5)%Z
  /\ Permutation (Main.topEntries [(lit "on", 1); (lit "cat", 3)] 5)
                 [(lit "on", 1); (lit "cat", 3)].
Proof.
  split; [simpl; lia|].
  apply (proj2 (top_entries_length [(lit "on", 1); (lit "cat", 3)] 5%Z)). simpl. lia.
Defined.

(** ** The data of the word charts *)

Lemma In_map_get (m : JsMap) (k : jsstring) (v : nat) :
  NoDup (keys m) -> In (k, v) m -> map_get m k = Some v.
Proof.
  induction m as [|[k0 v0] m IH]; intros Hnd Hin; [destruct Hin|].
  unfold keys in *. simpl in *. inversion Hnd as [|? ? Hk0 Hnd']; subst.
  destruct Hin as [E|Hin].
  - inversion E; subst. now rewrite streq_refl.
  - destruct (streq k0 k) eqn:Ek.
    + apply streq_true in Ek. subst k0. exfalso. apply Hk0.
      change k with (fst (k, v)). now apply in_map.
    + now apply IH.
Qed.

Lemma combine_fst_snd_id {A B} (l : list (A * B)) :
  combine (map fst l) (map snd l) = l.
Proof.
  induction l as [|[a b] l IH]; simpl; [reflexivity | now rewrite IH].
Qed.

Lemma StronglySorted_prefix {A} (R : A -> A -> Prop) (a b : list A) :
  StronglySorted R (a ++ b) -> StronglySorted R a.
Proof.
  induction a as [|x a IH]; intros H; [constructor|].
  simpl in H. inversion H as [|? ? Hs Hall]; subst.
  constructor; [now apply IH|]. apply Forall_app in Hall. tauto.
Qed.

Lemma StronglySorted_map_key {A} (key : A -> nat) (l : list A) :
  StronglySorted (fun a b => key b <= key a) l ->
  StronglySorted (fun a b => b <= a) (map key l).
Proof.
  induction 1 as [|x l Hs IH Hall]; simpl; constructor; [assumption|].
  apply Forall_map. exact Hall.
Qed.

Lemma chart_of_counted_tokens (ts : list jsstring) (K : Z) :
  (0 <= K)%Z ->
  chartOf ts (Z.to_nat K)
          (Main.wordChartData (Main.topEntries (Main.countTokens [] ts) K)).
Proof.
  intros HK. unfold chartOf, Main.wordChartData, Main.topEntries. simpl.
  rewrite slice0_nonneg by assumption.
  set (table := Main.countTokens [] ts).
  set (sorted := sort_desc snd table).
  assert (Hnd : NoDup (keys table)).
  { unfold table. rewrite keys_countTokens. apply distinct_NoDup. }
  assert (Hperm : Permutation sorted table) by apply sort_desc_perm.
  assert (Hnds : NoDup (map fst sorted)).
  { eapply Permutation_NoDup; [|exact Hnd]. symmetry. now apply Permutation_map. }
  split; [now rewrite !length_map|].
  split; [rewrite length_map; apply firstn_le_length|].
  split.
  { rewrite <- (firstn_skipn (Z.to_nat K) sorted), map_app in Hnds.
    now apply NoDup_app_remove_r in Hnds. }
  split.
  { apply StronglySorted_map_key.
    pose proof (sort_desc_sorted snd table) as Hs. fold sorted in Hs.
    rewrite <- (firstn_skipn (Z.to_nat K) sorted) in Hs.
    now apply StronglySorted_prefix in Hs. }
  intros l v Hin. rewrite combine_fst_snd_id in Hin.
  apply firstn_member in Hin.
  assert (Ht : In (l, v) table) by (eapply Permutation_in; eassumption).
  pose proof (In_map_get table l v Hnd Ht) as Hget.
  unfold table in Hget. rewrite map_get_countTokens in Hget. simpl in Hget.
  destruct (count_occ jsstring_eq_dec ts l =? 0) eqn:E; [discriminate|].
  apply Nat.eqb_neq in E. inversion Hget; subst.
  split; [|split; [reflexivity | lia]].
  apply (count_occ_In jsstring_eq_dec). lia.
Qed.

(** X12. The two word charts, for counts that are not negative: each shows at most
    that many tokens of the reviews of its label, no token twice, each with
    the number of its occurrences in those reviews, the most frequent first;
    and every label is a token, a non-empty string of letters [a-z] that is
    no stop word. *)
Theorem word_charts_of_metrics (toLowerCase : jsstring -> jsstring)
    (rows : list Papa.Row) (nPos nNeg : Z) :
  (0 <= nPos)%Z -> (0 <= nNeg)%Z ->
  let charts :=
    Main.renderWordCharts (Main.computeMetrics toLowerCase rows) nPos nNeg in
  chartOf (allTokens toLowerCase (filter (positiveRow toLowerCase) rows))
          (Z.to_nat nPos) (fst charts)
  /\ chartOf (allTokens toLowerCase (filter (negativeRow toLowerCase) rows))
             (Z.to_nat nNeg) (snd charts)
  /\ forall l, In l (Main.labels (fst charts)) \/ In l (Main.labels (snd charts)) ->
       l <> [] /\ alphabetic l /\ ~ In l Main.ENGLISH_STOPWORDS.
Proof.
  intros Hp Hn charts. subst charts. unfold Main.renderWordCharts.
  rewrite computeMetrics_result. simpl fst. simpl snd.
  simpl Main.posFreq. simpl Main.negFreq.
  pose proof (chart_of_counted_tokens
                (allTokens toLowerCase (filter (positiveRow toLowerCase) rows)) nPos Hp)
    as Cp.
  pose proof (chart_of_counted_tokens
                (allTokens toLowerCase (filter (negativeRow toLowerCase) rows)) nNeg Hn)
    as Cn.
  split; [exact Cp|]. split; [exact Cn|].
  assert (Htok : forall ts K l,
             In l (Main.labels (Main.wordChartData
                                  (Main.topEntries (Main.countTokens [] ts) K))) ->
             In l ts).
  { intros ts K l Hl. unfold Main.wordChartData in Hl. simpl in Hl.
    apply in_map_iff in Hl as [[k v] [<- Hin]]. simpl.
    apply (top_entries_are_largest _ _ _ (k, v)) in Hin as [Hin _].
    assert (Hk : In k (keys (Main.countTokens [] ts)))
      by (unfold keys; apply (in_map fst _ (k, v) Hin)).
    rewrite keys_countTokens in Hk. exact (proj1 (distinct_In _ _) Hk). }
  intros l Hl.
  assert (Hall : exists rows', In l (allTokens toLowerCase rows')).
  { destruct Hl as [Hl|Hl]; apply Htok in Hl; eauto. }
  destruct Hall as [rows' Hl']. apply allTokens_In in Hl' as [r [_ Hr]].
  unfold tokensOf in Hr. apply tokenize_In in Hr as [H1 [H2 H3]].
  split; [assumption|]. split; [assumption|].
  intros Hs. apply isStopword_In in Hs. congruence.
Qed.

Lemma word_charts_of_metrics_witness :
  (0 <= 1)%Z /\ (0 <= 5)%Z
  /\ chartOf (allTokens toLowerCaseAscii
                (filter (positiveRow toLowerCaseAscii)
                        [row "Great, great film" "pos"; row "dull" "neg"]))
             (Z.to_nat 1)
             (fst (Main.renderWordCharts
                     (Main.computeMetrics toLowerCaseAscii
                        [row "Great, great film" "pos"; row "dull" "neg"]) 1 5))
  /\ Main.labels (fst (Main.renderWordCharts
                         (Main.computeMetrics toLowerCaseAscii
                            [row "Great, great film" "pos"; row "dull" "neg"]) 1 5))
     = [lit "great"].
Proof.
  split; [lia|]. split; [lia|]. split; [|reflexivity].
  pose proof (word_charts_of_metrics toLowerCaseAscii
                [row "Great, great film" "pos"; row "dull" "neg"] 1%Z 5%Z) as H.
  cbv zeta in H. destruct H as [H _]; [lia | lia | exact H].
Defined.

(** ** The metrics of two lists of rows put together *)

(** X7. The metrics of a list of rows followed by another: the counts and the
    total add up, the lists of lengths follow each other, and the value of a
    token in a table is the sum of its values in the two tables. *)
Theorem metrics_of_concatenation (toLowerCase : jsstring -> jsstring)
    (rows rows' : list Papa.Row) (t : jsstring) :
  let m := Main.result (Main.computeMetrics toLowerCase rows) in
  let m' := Main.result (Main.computeMetrics toLowerCase rows') in
  let both := Main.result (Main.computeMetrics toLowerCase (rows ++ rows')) in
  Main.total both = Main.total m + Main.total m'
  /\ Main.posCount both = Main.posCount m + Main.posCount m'
  /\ Main.negCount both = Main.negCount m + Main.negCount m'
  /\ Main.lengthsOverall both = Main.lengthsOverall m ++ Main.lengthsOverall m'
  /\ Main.lengthsPos both = Main.lengthsPos m ++ Main.lengthsPos m'
  /\ Main.lengthsNeg both = Main.lengthsNeg m ++ Main.lengthsNeg m'
  /\ or0 (map_get (Main.posFreq both) t)
     = or0 (map_get (Main.posFreq m) t) + or0 (map_get (Main.posFreq m') t)
  /\ or0 (map_get (Main.negFreq both) t)
     = or0 (map_get (Main.negFreq m) t) + or0 (map_get (Main.negFreq m') t).
Proof.
  intros m m' both. subst m m' both. rewrite !computeMetrics_result. simpl.
  rewrite !filter_app, !map_app, !length_app.
  repeat split; try reflexivity.
  - rewrite !map_get_countTokens. unfold allTokens.
    rewrite map_app, concat_app, count_occ_app. simpl.
    repeat match goal with
           | |- context [?n =? 0] => destruct (Nat.eqb_spec n 0)
           end; simpl; lia.
  - rewrite !map_get_countTokens. unfold allTokens.
    rewrite map_app, concat_app, count_occ_app. simpl.
    repeat match goal with
           | |- context [?n =? 0] => destruct (Nat.eqb_spec n 0)
           end; simpl; lia.
Qed.

(** ** The entry of a word in [wordFrequency] *)

Lemma own_update_other (o : React.WordFrequency) (w w' : jsstring)
    (f : React.WordStats -> React.WordStats) :
  w <> w' -> React.own (React.update o w f) w' = React.own o w'.
Proof.
  intros Hne. induction o as [|[k v] o IH]; simpl; [reflexivity|].
  destruct (streq k w) eqn:E; simpl.
  - apply streq_true in E. subst k.
    apply streq_false in Hne. now rewrite Hne.
  - now rewrite IH.
Qed.

Lemma own_app_new (o : React.WordFrequency) (w w' : jsstring) (v : React.WordStats) :
  React.own (o ++ [(w, v)]) w'
  = match React.own o w' with
    | Some s => Some s
    | None => if streq w w' then Some v else None
    end.
Proof.
  induction o as [|[k v0] o IH]; simpl; [reflexivity|].
  destruct (streq k w'); [reflexivity | exact IH].
Qed.

(** The own property [w'] after the body of the word loop has run on [w]. *)
Lemma own_addWord (isPositive : bool) (o : React.WordFrequency) (w w' : jsstring) :
  React.own (React.addWord isPositive o w) w'
  = if streq w w' then
      match React.own o w with
      | Some s => Some (React.countTotal (React.countSentiment isPositive s))
      | None =>
          if React.inherited w then None
          else Some (React.countTotal
                       (React.countSentiment isPositive
                          {| React.word := w; React.positive := 0;
                             React.negative := 0; React.total := 0 |}))
      end
    else React.own o w'.
Proof.
  unfold React.addWord, React.defined. cbv zeta.
  destruct (streq w w') eqn:E.
  - apply streq_true in E. subst w'.
    destruct (React.own o w) as [s|] eqn:Eo.
    + rewrite (own_update _ w _ (React.countSentiment isPositive s));
        [reflexivity | now apply own_update].
    + destruct (React.inherited w).
      * now rewrite (update_absent o w _ Eo), (update_absent o w _ Eo).
      * rewrite (own_update _ w _ (React.countSentiment isPositive
                   {| React.word := w; React.positive := 0;
                      React.negative := 0; React.total := 0 |}));
          [reflexivity|].
        apply own_update. now apply own_new.
  - apply streq_false in E.
    rewrite !own_update_other by assumption.
    destruct (match React.own o w with Some _ => true | None => React.inherited w end);
      [reflexivity|].
    rewrite own_app_new. apply streq_false in E. rewrite E.
    now destruct (React.own o w').
Qed.

Lemma raise_twice (s : React.WordStats) (P N P' N' : nat) :
  raise (raise s P N) P' N' = raise s (P + P') (N + N').
Proof.
  unfold raise. simpl. f_equal; lia.
Qed.

Lemma raise_entry (w : jsstring) (P N P' N' : nat) :
  raise (entry w P N) P' N' = entry w (P + P') (N + N').
Proof.
  unfold raise, entry. simpl. f_equal; lia.
Qed.

Lemma count_step (isPositive : bool) (s : React.WordStats) :
  React.countTotal (React.countSentiment isPositive s)
  = raise s (if isPositive then 1 else 0) (if isPositive then 0 else 1).
Proof.
  unfold raise, React.countTotal, React.countSentiment.
  destruct isPositive, s; simpl; f_equal; lia.
Qed.

Lemma count_step_new (isPositive : bool) (w : jsstring) :
  React.countTotal
    (React.countSentiment isPositive
       {| React.word := w; React.positive := 0; React.negative := 0;
          React.total := 0 |})
  = entry w (if isPositive then 1 else 0) (if isPositive then 0 else 1).
Proof.
  unfold entry. destruct isPositive; reflexivity.
Qed.

(** The own property [w] after the word loop has run on the words [ws] of one
    message. *)
Lemma own_fold_addWord (isPositive : bool) (ws : list jsstring)
    (o : React.WordFrequency) (w : jsstring) :
  let c := count_occ jsstring_eq_dec ws w in
  React.own (fold_left (React.addWord isPositive) ws o) w
  = match React.own o w with
    | Some s => Some (raise s (if isPositive then c else 0) (if isPositive then 0 else c))
    | None =>
        if React.inherited w || (c =? 0) then None
        else Some (entry w (if isPositive then c else 0) (if isPositive then 0 else c))
    end.
Proof.
  revert o. induction ws as [|x ws IH]; intros o; simpl.
  - destruct (React.own o w) as [s|]; [|now rewrite orb_true_r].
    f_equal. unfold raise. destruct isPositive, s; simpl; f_equal; lia.
  - rewrite IH, own_addWord. clear IH.
    destruct (jsstring_eq_dec x w) as [->|Hne].
    + rewrite streq_refl.
      destruct (React.own o w) as [s|].
      * rewrite count_step, raise_twice. f_equal. destruct isPositive; f_equal; lia.
      * destruct (React.inherited w); simpl; [reflexivity|].
        rewrite count_step_new, raise_entry. f_equal.
        destruct isPositive; f_equal; lia.
    + apply streq_false in Hne. rewrite Hne. reflexivity.
Qed.

Lemma entries_add_up (x : option React.WordStats) (inh : bool) (w : jsstring)
    (c a b P N : nat) :
  c = a + b ->
  match
    match x with
    | Some s => Some (raise s a b)
    | None => if inh || (c =? 0) then None else Some (entry w a b)
    end
  with
  | Some s => Some (raise s P N)
  | None => if inh || (P + N =? 0) then None else Some (entry w P N)
  end
  = match x with
    | Some s => Some (raise s (a + P) (b + N))
    | None =>
        if inh || (a + P + (b + N) =? 0) then None
        else Some (entry w (a + P) (b + N))
    end.
Proof.
  intros Hc. destruct x as [s|]; [now rewrite raise_twice|].
  destruct inh; simpl; [reflexivity|].
  destruct (Nat.eqb_spec c 0) as [E|E].
  - assert (a = 0 /\ b = 0) as [-> ->] by lia. reflexivity.
  - rewrite raise_entry.
    destruct (Nat.eqb_spec (a + P + (b + N)) 0); [lia | reflexivity].
Qed.

Lemma own_fold_addMessage (n : nat) (messages : list React.Message)
    (o : React.WordFrequency) (w : jsstring) :
  let P := occurrences n (filter isPositiveMessage messages) w in
  let N := occurrences n (filter (fun msg => negb (isPositiveMessage msg)) messages) w in
  React.own (fold_left (React.addMessage n) messages o) w
  = match React.own o w with
    | Some s => Some (raise s P N)
    | None => if React.inherited w || (P + N =? 0) then None else Some (entry w P N)
    end.
Proof.
  revert o. induction messages as [|msg messages IH]; intros o; simpl.
  - unfold occurrences. simpl.
    destruct (React.own o w) as [s|]; [|now rewrite orb_true_r].
    f_equal. unfold raise. destruct s; simpl; f_equal; lia.
  - rewrite IH. clear IH. unfold React.addMessage.
    pose proof (own_fold_addWord (streq (React.sentiment msg) (lit "positive"))
                  (React.words n (React.text msg)) o w) as E.
    cbv zeta in E. rewrite E. clear E.
    unfold occurrences, isPositiveMessage.
    destruct (streq (React.sentiment msg) (lit "positive")) eqn:Ep; simpl;
      rewrite count_occ_app; fold (wordsOf n msg).
    + exact (entries_add_up _ _ w _ _ 0 _ _ (eq_sym (Nat.add_0_r _))).
    + exact (entries_add_up _ _ w _ 0 _ _ _ eq_refl).
Qed.

(** X13. The entry of a word in [wordFrequency]: its numbers of occurrences among
    the counted words of the positive messages and of all the other
    messages, and their sum; a word that was never met, or that names a
    property of [Object.prototype], has no entry. *)
Theorem word_entry (n : nat) (messages : list React.Message) (w : jsstring) :
  let P := occurrences n (filter isPositiveMessage messages) w in
  let N := occurrences n (filter (fun msg => negb (isPositiveMessage msg)) messages) w in
  React.own (React.wordFrequency n messages) w
  = if React.inherited w || (P + N =? 0) then None else Some (entry w P N).
Proof.
  intros P N. unfold React.wordFrequency.
  pose proof (own_fold_addMessage n messages [] w) as E. cbv zeta in E.
  rewrite E. reflexivity.
Qed.

(** ** The entries that [topWords] shows *)

Lemma In_own (o : React.WordFrequency) (k : jsstring) (v : React.WordStats) :
  NoDup (map fst o) -> In (k, v) o -> React.own o k = Some v.
Proof.
  induction o as [|[k0 v0] o IH]; intros Hnd Hin; [destruct Hin|].
  simpl in *. inversion Hnd as [|? ? Hk0 Hnd']; subst.
  destruct Hin as [E|Hin].
  - inversion E; subst. now rewrite streq_refl.
  - destruct (streq k0 k) eqn:Ek.
    + apply streq_true in Ek. subst k0. exfalso. apply Hk0.
      apply (in_map fst _ (k, v) Hin).
    + now apply IH.
Qed.

Lemma own_In (o : React.WordFrequency) (k : jsstring) (v : React.WordStats) :
  React.own o k = Some v -> In (k, v) o.
Proof.
  induction o as [|[k0 v0] o IH]; simpl; [discriminate|].
  destruct (streq k0 k) eqn:Ek.
  - apply streq_true in Ek. subst k0. intros H. inversion H. now left.
  - intros H. right. now apply IH.
Qed.

Lemma filter_partition_perm {A} (f : A -> bool) (l : list A) :
  Permutation (filter f l ++ filter (fun x => negb (f x)) l) l.
Proof.
  induction l as [|x l IH]; simpl; [reflexivity|].
  destruct (f x); simpl.
  - now constructor.
  - rewrite <- Permutation_middle. now constructor.
Qed.

Lemma objectValues_perm (o : React.WordFrequency) :
  Permutation (React.objectValues o) (map snd o).
Proof.
  destruct (objectValues_order o) as [indexed [Hp [_ E]]]. rewrite E.
  apply Permutation_map. rewrite Hp. apply filter_partition_perm.
Qed.

Lemma wordFrequency_NoDup (n : nat) (messages : list React.Message) :
  NoDup (map fst (React.wordFrequency n messages)).
Proof.
  rewrite wordFrequency_keys. apply distinct_NoDup.
Qed.

Lemma wordFrequency_entry (n : nat) (messages : list React.Message)
    (k : jsstring) (s : React.WordStats) :
  In (k, s) (React.wordFrequency n messages) ->
  React.word s = k /\ React.total s = React.positive s + React.negative s
  /\ 1 <= React.total s.
Proof.
  intros Hin. apply (In_own _ _ _ (wordFrequency_NoDup n messages)) in Hin.
  pose proof (word_entry n messages k) as E. cbv zeta in E. rewrite E in Hin.
  destruct (React.inherited k); [discriminate|]. simpl in Hin.
  match type of Hin with
  | context [?a =? 0] => destruct (Nat.eqb_spec a 0) as [E0|E0]; [discriminate|]
  end.
  inversion Hin; subst. unfold entry. simpl. repeat split. lia.
Qed.

(** X14. Every bar of the chart of [topWords] belongs to one word, and no word to
    two bars; its total is the sum of its positive and its negative part and
    is at least one; and no word that is left out of the twenty has a
    greater total than one that is shown. *)
Theorem top_words_entries (n : nat) (messages : list React.Message)
    (s : React.WordStats) :
  let table := React.wordFrequency n messages in
  let shown := React.topWords (React.analyzeSentiment n messages) in
  NoDup (map React.word shown)
  /\ (In s shown ->
      React.own table (React.word s) = Some s
      /\ React.total s = React.positive s + React.negative s
      /\ 1 <= React.total s
      /\ forall w s', React.own table w = Some s' ->
           In s' shown \/ React.total s' <= React.total s).
Proof.
  intros table shown.
  assert (Eshown : shown = firstn 20 (sort_desc React.total (React.objectValues table))).
  { unfold shown, React.analyzeSentiment. simpl React.topWords.
    now rewrite slice0_nonneg by lia. }
  assert (Hvalues : forall x, In x (React.objectValues table) <->
                              exists k, In (k, x) table).
  { intros x. split.
    - intros Hx. apply (Permutation_in _ (objectValues_perm table)) in Hx.
      apply in_map_iff in Hx as [[k v] [Ev Hin]]. simpl in Ev. subst v. now exists k.
    - intros [k Hk]. apply (Permutation_in _ (Permutation_sym (objectValues_perm table))).
      apply (in_map snd _ (k, x) Hk). }
  split.
  - rewrite Eshown.
    assert (Hnd : NoDup (map React.word (sort_desc React.total (React.objectValues table)))).
    { eapply Permutation_NoDup.
      - symmetry. apply Permutation_map.
        rewrite sort_desc_perm. apply objectValues_perm.
      - rewrite map_map.
        rewrite (map_ext_in _ fst); [apply wordFrequency_NoDup|].
        intros [k v] Hin. simpl. now apply (wordFrequency_entry n messages k v). }
    rewrite <- (firstn_skipn 20 (sort_desc React.total (React.objectValues table))),
      map_app in Hnd.
    now apply NoDup_app_remove_r in Hnd.
  - intros Hs. rewrite Eshown in Hs.
    assert (Hs' : In s (React.objectValues table)).
    { apply firstn_member in Hs.
      eapply Permutation_in; [apply sort_desc_perm | exact Hs]. }
    apply Hvalues in Hs' as [k Hk].
    destruct (wordFrequency_entry n messages k s Hk) as [Ew [Et H1]].
    split; [rewrite Ew; now apply In_own; [apply wordFrequency_NoDup|]|].
    split; [exact Et|]. split; [exact H1|].
    intros w s' Hown. apply own_In in Hown.
    rewrite Eshown. apply firstn_largest; [exact Hs|].
    apply Hvalues. now exists w.
Qed.

Lemma top_words_entries_witness :
  In (entry (lit "good") 2 1)
     (React.topWords (React.analyzeSentiment 3
        [message "good good film" "positive"; message "not good" "negative"]))
  /\ React.own (React.wordFrequency 3
        [message "good good film" "positive"; message "not good" "negative"])
       (React.word (entry (lit "good") 2 1))
     = Some (entry (lit "good") 2 1).
Proof.
  assert (H : In (entry (lit "good") 2 1)
                 (React.topWords (React.analyzeSentiment 3
                    [message "good good film" "positive"; message "not good" "negative"])))
    by (vm_compute; left; reflexivity).
  split; [exact H|].
  apply (proj2 (top_words_entries 3
                  [message "good good film" "positive"; message "not good" "negative"]
                  (entry (lit "good") 2 1)) H).
Defined.

(** ** The counts of [analyzeSentiment] *)

Lemma list_sum_bounds {A} (f : A -> nat) (l : list A) (lo hi : nat) :
  (forall x, In x l -> lo <= f x <= hi) ->
  lo * length l <= list_sum (map f l) <= hi * length l.
Proof.
  induction l as [|x l IH]; intros H; simpl; [lia|].
  pose proof (H x (or_introl eq_refl)) as Hx.
  assert (Hl : forall y, In y l -> lo <= f y <= hi) by (intros y Hy; apply H; now right).
  specialize (IH Hl). lia.
Qed.

(** A quotient of two counts lies between two whole numbers when the
    dividend lies between their products by the divisor. *)
Lemma div_between (a b lo hi : nat) :
  0 < b -> lo * b <= a <= hi * b -> between lo hi (div a b).
Proof.
  intros Hb [Hlo Hhi]. unfold div. destruct b as [|b']; [lia|].
  unfold between, Qle. cbn [Qnum Qden inject_Z].
  rewrite <- Pos.of_nat_succ, Zpos_P_of_succ_nat. split; nia.
Qed.

(** X15. The messages are the positive ones, the negative ones and those with
    another label; the average of a class that has messages is a finite
    number that lies between the length of the shortest and the length of
    the longest text of the class. The bounds are whole numbers: they hold
    of the quotient whether it is rounded or not. *)
Theorem sentiment_counts (n : nat) (messages : list React.Message) :
  let s := React.analyzeSentiment n messages in
  let positives := filter (fun msg => streq (React.sentiment msg) (lit "positive")) messages in
  let negatives := filter (fun msg => streq (React.sentiment msg) (lit "negative")) messages in
  length messages
  = React.positiveCount s + React.negativeCount s
    + length (filter (fun msg => negb (streq (React.sentiment msg) (lit "positive"))
                                 && negb (streq (React.sentiment msg) (lit "negative")))
                     messages)
  /\ (forall lo hi : nat,
      0 < React.positiveCount s ->
      (forall msg, In msg positives -> lo <= length (React.text msg) <= hi) ->
      between lo hi (React.avgLengthPositive s))
  /\ (forall lo hi : nat,
      0 < React.negativeCount s ->
      (forall msg, In msg negatives -> lo <= length (React.text msg) <= hi) ->
      between lo hi (React.avgLengthNegative s)).
Proof.
  intros s positives negatives. subst s. simpl.
  assert (Hsum : forall l a,
             fold_left (fun sum msg => sum + length (React.text msg)) l a
             = a + list_sum (map (fun msg => length (React.text msg)) l)).
  { induction l as [|x l IH]; intros a; simpl; [lia|]. rewrite IH. lia. }
  assert (Havg : forall l lo hi, 0 < length l ->
             (forall msg, In msg l -> lo <= length (React.text msg) <= hi) ->
             between lo hi (React.avgLength l)).
  { intros l lo hi Hl Hb. unfold React.avgLength, React.sumLength.
    apply Nat.ltb_lt in Hl as Hlt. rewrite Hlt, Hsum. simpl.
    apply div_between; [exact Hl|]. now apply list_sum_bounds. }
  split; [|split; intros lo hi; apply Havg].
  apply filter_three. intros msg H. apply streq_true in H. rewrite H. reflexivity.
Qed.

Lemma sentiment_counts_witness :
  0 < React.positiveCount (React.analyzeSentiment 3
        [message "good" "positive"; message "fine film" "positive"])
  /\ (forall msg,
        In msg (filter (fun msg => streq (React.sentiment msg) (lit "positive"))
                  [message "good" "positive"; message "fine film" "positive"]) ->
        4 <= length (React.text msg) <= 9)
  /\ between 4 9 (React.avgLengthPositive (React.analyzeSentiment 3
        [message "good" "positive"; message "fine film" "positive"])).
Proof.
  assert (H0 : 0 < React.positiveCount (React.analyzeSentiment 3
        [message "good" "positive"; message "fine film" "positive"])) by (simpl; lia).
  assert (H1 : forall msg,
        In msg (filter (fun msg => streq (React.sentiment msg) (lit "positive"))
                  [message "good" "positive"; message "fine film" "positive"]) ->
        4 <= length (React.text msg) <= 9).
  { intros msg [<-|[<-|[]]]; simpl; lia. }
  split; [exact H0|]. split; [exact H1|].
  pose proof (sentiment_counts 3
                [message "good" "positive"; message "fine film" "positive"]) as T.
  cbv zeta in T. destruct T as [_ [T _]]. exact (T 4 9 H0 H1).
Defined.

(** ** The word filter of the React component *)

Lemma startsWith_iff (p s : jsstring) :
  React.startsWith p s = true <-> exists b, s = p ++ b.
Proof.
  revert s. induction p as [|a p IH]; intros s; simpl.
  - split; [intros _; now exists s | reflexivity].
  - destruct s as [|c s']; [split; [discriminate | intros [b Hb]; discriminate]|].
    rewrite andb_true_iff, N.eqb_eq, IH. split.
    + intros [-> [b ->]]. now exists b.
    + intros [b Hb]. inversion Hb; subst. split; [reflexivity | now exists b].
Qed.

Lemma includes_iff (s p : jsstring) :
  React.includes s p = true <-> exists a b, s = a ++ p ++ b.
Proof.
  induction s as [|c s IH]; simpl; rewrite orb_true_iff, startsWith_iff.
  - split.
    + intros [[b Hb]|H]; [|discriminate]. now exists [], b.
    + intros [a [b H]]. left. destruct a; [now exists b|discriminate].
  - rewrite IH. split.
    + intros [[b Hb]|[a [b Hb]]]; [now exists [], b|].
      exists (c :: a), b. simpl. now rewrite Hb.
    + intros [a [b H]]. destruct a as [|d a]; [left; now exists b|].
      right. inversion H; subst. now exists a, b.
Qed.

Lemma filter_idempotent {A} (f : A -> bool) (l : list A) :
  filter f (filter f l) = filter f l.
Proof.
  rewrite filter_filter. apply filter_ext. intros x. apply andb_diag.
Qed.

Lemma filter_filter_length {A} (f g : A -> bool) (l : list A) :
  length (filter f (filter g l)) <= length (filter f l).
Proof.
  induction l as [|x l IH]; simpl; [lia|].
  destruct (g x); simpl; destruct (f x); simpl; lia.
Qed.

(** X16. The messages the word filter keeps. A filter that is blank keeps them
    all; any other keeps, in their order, the messages whose text holds the
    filter in lower case somewhere, inside a longer word too. Filtering again
    with the same filter changes nothing, and no count of
    [analyzeSentiment] grows by filtering. *)
Theorem filtered_messages (toLowerCase : jsstring -> jsstring)
    (wordFilter : jsstring) (n : nat) (messages : list React.Message) :
  let kept := React.filterMessages toLowerCase wordFilter messages in
  (trim wordFilter = [] -> kept = messages)
  /\ (trim wordFilter <> [] ->
      forall msg, In msg kept <->
        In msg messages
        /\ exists before after,
             React.text msg = before ++ toLowerCase wordFilter ++ after)
  /\ React.filterMessages toLowerCase wordFilter kept = kept
  /\ length kept <= length messages
  /\ React.positiveCount (React.analyzeSentiment n kept)
     <= React.positiveCount (React.analyzeSentiment n messages)
  /\ React.negativeCount (React.analyzeSentiment n kept)
     <= React.negativeCount (React.analyzeSentiment n messages).
Proof.
  intros kept. subst kept. unfold React.filterMessages.
  destruct (streq (trim wordFilter) []) eqn:E.
  - apply streq_true in E. rewrite E.
    repeat split; try reflexivity; try lia; congruence.
  - apply streq_false in E.
    split; [congruence|]. split.
    { intros _ msg. rewrite filter_In, includes_iff. reflexivity. }
    split; [apply filter_idempotent|].
    split; [apply filter_length_le|].
    simpl. split; apply filter_filter_length.
Qed.

Lemma filtered_messages_witness :
  trim (lit " Class ") <> []
  /\ (In (message "a classic" "positive")
         (React.filterMessages toLowerCaseAscii (lit "Class")
            [message "a classic" "positive"; message "dull" "negative"])
      <-> In (message "a classic" "positive")
             [message "a classic" "positive"; message "dull" "negative"]
          /\ exists before after,
               React.text (message "a classic" "positive")
               = before ++ toLowerCaseAscii (lit "Class") ++ after).
Proof.
  split; [discriminate|].
  apply (proj1 (proj2 (filtered_messages toLowerCaseAscii (lit "Class") 3
                         [message "a classic" "positive"; message "dull" "negative"]))).
  discriminate.
Defined.

(** ** The state of the React component *)

Lemma applyFilters_shows_applied (toLowerCase : jsstring -> jsstring) (st : React.State) :
  shows_applied toLowerCase (React.applyFilters toLowerCase st).
Proof.
  intros _. split; reflexivity.
Qed.

Lemma data_nonempty (l : list React.Message) : (0 <? length l) = true -> l <> [].
Proof.
  destruct l; [discriminate | discriminate].
Qed.

Lemma data_empty (l : list React.Message) : (0 <? length l) = false -> l = [].
Proof.
  destruct l; [reflexivity | discriminate].
Qed.

(** The last render of an event is the handler's, or the effect's when a
    dependency has changed and there are data. *)
Lemma settle_cases (toLowerCase : jsstring -> jsstring)
    (st : React.State) (ev : React.Event) :
  let first := React.handle st ev in
  let last := React.settle toLowerCase st ev in
  (React.renders toLowerCase st ev = [first] /\ last = first
   /\ (React.dependenciesChanged st first ev = false \/ React.data first = []))
  \/ (React.renders toLowerCase st ev = [first; last]
      /\ last = React.applyFilters toLowerCase first
      /\ React.dependenciesChanged st first ev = true /\ React.data first <> []).
Proof.
  intros first last. subst first last. unfold React.settle, React.renders, React.effect.
  destruct (React.dependenciesChanged st (React.handle st ev) ev) eqn:Ed.
  - destruct (0 <? length (React.data (React.handle st ev))) eqn:El.
    + right. repeat split. now apply data_nonempty.
    + left. repeat split. right. now apply data_empty.
  - left. repeat split. now left.
Qed.

(** The handler of an event leaves [filteredData] and [stats] alone. *)
Lemma handle_keeps_shown (st : React.State) (ev : React.Event) :
  React.filteredData (React.handle st ev) = React.filteredData st
  /\ React.stats (React.handle st ev) = React.stats st.
Proof.
  destruct ev; split; reflexivity.
Qed.

Lemma settle_shows_applied (toLowerCase : jsstring -> jsstring)
    (st : React.State) (ev : React.Event) :
  shows_applied toLowerCase st -> shows_applied toLowerCase (React.settle toLowerCase st ev).
Proof.
  intros H.
  destruct (settle_cases toLowerCase st ev) as [[_ [E Hd]]|[_ [E _]]]; rewrite E.
  2: apply applyFilters_shows_applied.
  destruct Hd as [Ed|Ed]; [|intros Hne; congruence].
  destruct ev; simpl in *; try discriminate; try exact H.
  - apply orb_false_elim in Ed as [E1 E2].
    apply negb_false_iff in E1. apply negb_false_iff in E2.
    apply streq_true in E1. apply Nat.eqb_eq in E2.
    unfold shows_applied in *. simpl. rewrite <- E1, <- E2. exact H.
  - apply orb_false_elim in Ed as [E1 E2].
    apply negb_false_iff in E1. apply negb_false_iff in E2.
    apply streq_true in E1. apply Nat.eqb_eq in E2.
    unfold shows_applied in *. simpl. rewrite <- E1, <- E2. exact H.
Qed.

Lemma run_shows_applied (toLowerCase : jsstring -> jsstring)
    (events : list React.Event) (st : React.State) :
  shows_applied toLowerCase st ->
  shows_applied toLowerCase (fold_left (React.settle toLowerCase) events st).
Proof.
  revert st. induction events as [|ev events IH]; intros st H; [exact H|].
  simpl. apply IH. now apply settle_shows_applied.
Qed.

Lemma initial_shows_applied (toLowerCase : jsstring -> jsstring) :
  shows_applied toLowerCase React.initial.
Proof.
  unfold shows_applied. simpl. congruence.
Qed.

Lemma settle_keeps_inputs (toLowerCase : jsstring -> jsstring)
    (st : React.State) (ev : React.Event) :
  React.data (React.settle toLowerCase st ev) = React.data (React.handle st ev)
  /\ React.loading (React.settle toLowerCase st ev) = React.loading (React.handle st ev)
  /\ React.wordFilter (React.settle toLowerCase st ev)
     = React.wordFilter (React.handle st ev)
  /\ React.minWordLength (React.settle toLowerCase st ev)
     = React.minWordLength (React.handle st ev)
  /\ React.appliedWordFilter (React.settle toLowerCase st ev)
     = React.appliedWordFilter (React.handle st ev)
  /\ React.appliedMinWordLength (React.settle toLowerCase st ev)
     = React.appliedMinWordLength (React.handle st ev).
Proof.
  destruct (settle_cases toLowerCase st ev) as [[_ [E _]]|[_ [E _]]]; rewrite E;
    repeat split.
Qed.



Lemma settle_stats (toLowerCase : jsstring -> jsstring)
    (st : React.State) (ev : React.Event) :
  shows_applied toLowerCase st ->
  (React.stats (React.settle toLowerCase st ev) = None <->
   React.stats st = None /\ bringsData ev = false).
Proof.
  intros H.
  destruct (settle_cases toLowerCase st ev) as [[_ [E Hd]]|[_ [E [Ed Hne]]]]; rewrite E.
  - destruct Hd as [Ed|Ed].
    + destruct ev; simpl in *; try discriminate; tauto.
    + destruct ev; simpl in *; try tauto.
      subst parsedData. tauto.
  - simpl. split; [discriminate|]. intros [Hs Hb]. exfalso.
    destruct ev; simpl in *.
    + destruct parsedData; [congruence | discriminate].
    + rewrite streq_refl, Nat.eqb_refl in Ed. discriminate.
    + rewrite streq_refl, Nat.eqb_refl in Ed. discriminate.
    + rewrite streq_refl, Nat.eqb_refl in Ed. discriminate.
    + destruct (H Hne) as [_ Hst]. congruence.
    + destruct (H Hne) as [_ Hst]. congruence.
Qed.

Lemma run_loading_stats (toLowerCase : jsstring -> jsstring) (events : list React.Event) :
  let st := fold_left (React.settle toLowerCase) events React.initial in
  React.loading st = negb (existsb endsLoad events)
  /\ (React.stats st = None <-> existsb bringsData events = false).
Proof.
  induction events as [|ev events IH] using rev_ind.
  - simpl. tauto.
  - cbv zeta in *. rewrite fold_left_app, !existsb_app. simpl fold_left. simpl existsb.
    rewrite !orb_false_r.
    destruct IH as [IHl IHs].
    pose proof (run_shows_applied toLowerCase events React.initial
                  (initial_shows_applied toLowerCase)) as Hinv.
    destruct (settle_keeps_inputs toLowerCase
                (fold_left (React.settle toLowerCase) events React.initial) ev)
      as [_ [El _]].
    split.
    + rewrite El, negb_orb, <- IHl.
      destruct ev; simpl; rewrite ?andb_true_r, ?andb_false_r; reflexivity.
    + rewrite (settle_stats toLowerCase _ ev Hinv), IHs, orb_false_iff. reflexivity.
Qed.

Lemma view_cases (st : React.State) :
  (React.view st = React.LoadingView <-> React.loading st = true)
  /\ (React.view st = React.ErrorView <->
      React.loading st = false /\ React.stats st = None).
Proof.
  unfold React.view. destruct (React.loading st), (React.stats st); split; split;
    try discriminate; try tauto; intros [? ?]; discriminate.
Qed.

(** X18. The line the component shows. In every render it is the loading line
    until a load has ended. In the render that follows a handler it is the
    error line when a load has ended and no event before this one has
    brought a message: the statistics are still missing in the render that
    follows the first load with messages, which shows the error line. In
    the last render of an event it is the error line exactly when a load has
    ended and no load, this one included, has brought a message, a file
    without any usable row included; else it is the dashboard. *)
Theorem view_of_component (toLowerCase : jsstring -> jsstring)
    (events : list React.Event) (ev : React.Event) :
  let before := fold_left (React.settle toLowerCase) events React.initial in
  let first := React.handle before ev in
  let last := React.settle toLowerCase before ev in
  (React.view first = React.LoadingView <-> existsb endsLoad (events ++ [ev]) = false)
  /\ (React.view first = React.ErrorView <->
      existsb endsLoad (events ++ [ev]) = true /\ existsb bringsData events = false)
  /\ (React.view last = React.LoadingView <-> existsb endsLoad (events ++ [ev]) = false)
  /\ (React.view last = React.ErrorView <->
      existsb endsLoad (events ++ [ev]) = true
      /\ existsb bringsData (events ++ [ev]) = false).
Proof.
  intros before first last.
  destruct (run_loading_stats toLowerCase events) as [_ Hs0]. fold before in Hs0.
  pose proof (run_loading_stats toLowerCase (events ++ [ev])) as H.
  cbv zeta in H. rewrite fold_left_app in H. simpl fold_left in H.
  fold before in H. fold last in H. destruct H as [Hl Hs].
  destruct (settle_keeps_inputs toLowerCase before ev) as [_ [El _]].
  fold first last in El.
  destruct (handle_keeps_shown before ev) as [_ Es]. fold first in Es.
  destruct (view_cases first) as [F1 F2]. destruct (view_cases last) as [L1 L2].
  rewrite F1, F2, L1, L2, Es, <- El, Hl, Hs, Hs0.
  destruct (existsb endsLoad (events ++ [ev])); simpl; intuition congruence.
Qed.

Lemma view_of_component_witness :
  (existsb endsLoad ([] ++ [React.Loaded [message "good film" "positive"]]) = true
   /\ existsb bringsData [] = false)
  /\ React.view (React.handle (fold_left (React.settle toLowerCaseAscii) [] React.initial)
                   (React.Loaded [message "good film" "positive"]))
     = React.ErrorView
  /\ React.view (React.settle toLowerCaseAscii
                   (fold_left (React.settle toLowerCaseAscii) [] React.initial)
                   (React.Loaded [message "good film" "positive"]))
     <> React.ErrorView.
Proof.
  assert (H : existsb endsLoad ([] ++ [React.Loaded [message "good film" "positive"]]) = true
              /\ existsb bringsData [] = false) by (split; reflexivity).
  split; [exact H|].
  pose proof (view_of_component toLowerCaseAscii []
                (React.Loaded [message "good film" "positive"])) as T.
  cbv zeta in T. destruct T as [_ [T2 [_ T4]]].
  split; [exact (proj2 T2 H)|].
  intros E. apply (proj1 T4) in E. destruct E as [_ E]. discriminate E.
Defined.

(** X19. The two buttons. In the render that follows [handleApplyFilters] the
    applied filters are the ones typed, while the filtered data and the
    statistics are still those of before; in the last render of the event,
    when the component holds data, they are the data filtered by the typed
    word filter and their statistics for the typed minimal word length. In
    the render that follows [clearFilters] no filter is active and the two
    inputs are reset, the filtered data and the statistics still being those
    of before; in the last render they are all the data and their statistics
    for the minimal word length 3. *)
Theorem apply_and_clear (toLowerCase : jsstring -> jsstring)
    (events : list React.Event) :
  let before := fold_left (React.settle toLowerCase) events React.initial in
  let applying := React.handle before React.ApplyFilters in
  let applied := React.settle toLowerCase before React.ApplyFilters in
  let clearing := React.handle before React.ClearFilters in
  let cleared := React.settle toLowerCase before React.ClearFilters in
  (React.appliedWordFilter applying = React.wordFilter before
   /\ React.appliedMinWordLength applying = React.minWordLength before
   /\ React.filteredData applying = React.filteredData before
   /\ React.stats applying = React.stats before
   /\ React.appliedWordFilter applied = React.wordFilter before
   /\ React.appliedMinWordLength applied = React.minWordLength before
   /\ (React.data before <> [] ->
       React.filteredData applied
       = React.filterMessages toLowerCase (React.wordFilter before) (React.data before)
       /\ React.stats applied
          = Some (React.analyzeSentiment (React.minWordLength before)
                    (React.filteredData applied))))
  /\ (React.hasActiveFilters clearing = false
      /\ React.wordFilter clearing = [] /\ React.minWordLength clearing = 3
      /\ React.filteredData clearing = React.filteredData before
      /\ React.stats clearing = React.stats before
      /\ React.hasActiveFilters cleared = false
      /\ React.wordFilter cleared = [] /\ React.minWordLength cleared = 3
      /\ (React.data before <> [] ->
          React.filteredData cleared = React.data before
          /\ React.stats cleared
             = Some (React.analyzeSentiment 3 (React.data before)))).
Proof.
  intros before applying applied clearing cleared.
  pose proof (run_shows_applied toLowerCase events React.initial
                (initial_shows_applied toLowerCase)) as Hinv.
  fold before in Hinv.
  pose proof (settle_shows_applied toLowerCase before React.ApplyFilters Hinv) as Ha.
  pose proof (settle_shows_applied toLowerCase before React.ClearFilters Hinv) as Hc.
  fold applied in Ha. fold cleared in Hc.
  destruct (settle_keeps_inputs toLowerCase before React.ApplyFilters)
    as [Ad [_ [Aw [Am [Aaw Aam]]]]].
  destruct (settle_keeps_inputs toLowerCase before React.ClearFilters)
    as [Cd [_ [Cw [Cm [Caw Cam]]]]].
  fold applied in Ad, Aw, Am, Aaw, Aam. fold cleared in Cd, Cw, Cm, Caw, Cam.
  simpl in Ad, Aw, Am, Aaw, Aam, Cd, Cw, Cm, Caw, Cam.
  split.
  - split; [reflexivity|]. split; [reflexivity|]. split; [reflexivity|].
    split; [reflexivity|]. split; [exact Aaw|]. split; [exact Aam|].
    intros Hd. unfold shows_applied in Ha. rewrite Ad, Aaw, Aam in Ha. now apply Ha.
  - split; [reflexivity|]. split; [reflexivity|]. split; [reflexivity|].
    split; [reflexivity|]. split; [reflexivity|].
    split; [unfold React.hasActiveFilters; now rewrite Caw, Cam|].
    split; [exact Cw|]. split; [exact Cm|].
    intros Hd. unfold shows_applied in Hc. rewrite Cd, Caw, Cam in Hc.
    destruct (Hc Hd) as [Hf Hs]. split; [exact Hf|]. rewrite Hs, Hf. reflexivity.
Qed.

Lemma apply_and_clear_witness :
  React.data (fold_left (React.settle toLowerCaseAscii)
                [React.Loaded [message "good film" "positive"];
                 React.WordFilterChange (lit "dull"); React.ApplyFilters]
                React.initial) <> []
  /\ React.filteredData
       (React.settle toLowerCaseAscii
          (fold_left (React.settle toLowerCaseAscii)
             [React.Loaded [message "good film" "positive"];
              React.WordFilterChange (lit "dull"); React.ApplyFilters]
             React.initial)
          React.ClearFilters)
     = [message "good film" "positive"]
  /\ React.filteredData
       (React.handle
          (fold_left (React.settle toLowerCaseAscii)
             [React.Loaded [message "good film" "positive"];
              React.WordFilterChange (lit "dull"); React.ApplyFilters]
             React.initial)
          React.ClearFilters)
     = [].
Proof.
  assert (H : React.data (fold_left (React.settle toLowerCaseAscii)
                [React.Loaded [message "good film" "positive"];
                 React.WordFilterChange (lit "dull"); React.ApplyFilters]
                React.initial) <> []) by discriminate.
  split; [exact H|].
  pose proof (apply_and_clear toLowerCaseAscii
                [React.Loaded [message "good film" "positive"];
                 React.WordFilterChange (lit "dull"); React.ApplyFilters]) as T.
  cbv zeta in T. destruct T as [_ [_ [_ [_ [E1 [_ [_ [_ [_ T]]]]]]]]].
  destruct (T H) as [E _].
  split; [rewrite E; reflexivity | rewrite E1; reflexivity].
Defined.

(** ** No URL is left by [stripUrls] *)

Lemma after_prefix_exact (p r : jsstring) : Main.after_prefix p (p ++ r) = Some r.
Proof.
  induction p as [|a p IH]; simpl; [reflexivity|]. now rewrite N.eqb_refl.
Qed.

Lemma url_at_iff (s : jsstring) :
  Main.url_at s = true <->
  exists x rest, is_space x = false
                 /\ (s = lit "https://" ++ x :: rest \/ s = lit "http://" ++ x :: rest).
Proof.
  split.
  - unfold Main.url_at. intros H.
    destruct (Main.after_prefix (lit "https://") s) as [[|c t]|] eqn:E1.
    + destruct (Main.after_prefix (lit "http://") s) as [[|c t]|] eqn:E2;
        try discriminate.
      apply after_prefix_app in E2. apply negb_true_iff in H. exists c, t. auto.
    + apply after_prefix_app in E1. apply negb_true_iff in H. exists c, t. auto.
    + destruct (Main.after_prefix (lit "http://") s) as [[|c t]|] eqn:E2;
        try discriminate.
      apply after_prefix_app in E2. apply negb_true_iff in H. exists c, t. auto.
  - intros [x [rest [Hx [-> | ->]]]]; unfold Main.url_at.
    + rewrite after_prefix_exact. now rewrite Hx.
    + assert (E : Main.after_prefix (lit "https://") (lit "http://" ++ x :: rest) = None)
        by reflexivity.
      rewrite E, after_prefix_exact. now rewrite Hx.
Qed.

(** A match starts with a unit that is not white space, and so do the eight
    units after the first of a match at most. *)
Lemma url_at_head (c : codeunit) (t : jsstring) :
  Main.url_at (c :: t) = true ->
  is_space c = false
  /\ exists w rest, t = w ++ rest /\ Forall (fun d => is_space d = false) w
                    /\ forall t', Main.url_at (c :: w ++ t') = true.
Proof.
  intros H. apply url_at_iff in H as [x [rest [Hx [E|E]]]];
    inversion E; subst; (split; [reflexivity|]).
  - exists (tl (lit "https://") ++ [x]), rest.
    split; [reflexivity|]. split.
    + apply Forall_app. split; [now repeat constructor | now constructor].
    + intros t'. apply url_at_iff. exists x, t'. split; [assumption|]. left.
      reflexivity.
  - exists (tl (lit "http://") ++ [x]), rest.
    split; [reflexivity|]. split.
    + apply Forall_app. split; [now repeat constructor | now constructor].
    + intros t'. apply url_at_iff. exists x, t'. split; [assumption|]. right.
      reflexivity.
Qed.

(** What [stripUrls] returns up to its first white space is as in its
    argument. *)
Lemma stripUrls_solid_prefix (w : jsstring) (r rest : jsstring) :
  Forall (fun d => is_space d = false) w ->
  Main.stripUrls_from false r = w ++ rest ->
  exists rest', r = w ++ rest'.
Proof.
  intros Hw. revert r. induction Hw as [|d w' Hd Hw IH]; intros r E; [now exists r|].
  destruct r as [|e r']; [discriminate|].
  simpl in E. destruct (Main.url_at (e :: r')).
  - inversion E; subst. discriminate.
  - inversion E as [[Ee Er]]. subst e. destruct (IH _ Er) as [rest' ->].
    now exists rest'.
Qed.

Lemma stripUrls_no_match (in_url : bool) (s a t : jsstring) :
  Main.stripUrls_from in_url s = a ++ t -> Main.url_at t = false.
Proof.
  revert in_url a. induction s as [|c r IH]; intros in_url a E.
  - simpl in E. destruct a; [|discriminate]. simpl in E. now subst t.
  - simpl in E. destruct in_url.
    + destruct (is_space c) eqn:Ec; [|now apply (IH true a)].
      destruct a as [|c' a'].
      * simpl in E. subst t. destruct (Main.url_at _) eqn:Eu; [|reflexivity].
        apply url_at_head in Eu as [Hc _]. congruence.
      * inversion E. now apply (IH false a').
    + destruct (Main.url_at (c :: r)) eqn:Eu.
      * destruct a as [|c' a'].
        -- simpl in E. subst t. destruct (Main.url_at _) eqn:Eu'; [|reflexivity].
           apply url_at_head in Eu' as [Hc _]. discriminate.
        -- inversion E. now apply (IH true a').
      * destruct a as [|c' a'].
        -- simpl in E. subst t. destruct (Main.url_at _) eqn:Eu'; [|reflexivity].
           apply url_at_head in Eu' as [_ [w [rest [Er [Hw Hall]]]]].
           destruct (stripUrls_solid_prefix w r rest Hw Er) as [rest' ->].
           rewrite Hall in Eu. discriminate.
        -- inversion E. now apply (IH false a').
Qed.

Lemma stripUrls_fixed (o : jsstring) :
  (forall a t, o = a ++ t -> Main.url_at t = false) -> Main.stripUrls o = o.
Proof.
  unfold Main.stripUrls. induction o as [|c o IH]; intros H; [reflexivity|].
  simpl. rewrite (H [] (c :: o) eq_refl). f_equal. apply IH.
  intros a t E. apply (H (c :: a) t). simpl. now rewrite E.
Qed.

(** X4. In what [stripUrls] returns, the URL pattern matches nowhere, so that
    removing the URLs once more changes nothing. *)
Theorem stripUrls_leaves_no_url (s : jsstring) :
  (forall a t, Main.stripUrls s = a ++ t -> Main.url_at t = false)
  /\ Main.stripUrls (Main.stripUrls s) = Main.stripUrls s.
Proof.
  assert (H : forall a t, Main.stripUrls s = a ++ t -> Main.url_at t = false)
    by (intros a t; apply stripUrls_no_match).
  split; [exact H | now apply stripUrls_fixed].
Qed.

Lemma stripUrls_leaves_no_url_witness :
  Main.stripUrls (lit "see http://a.b/c?d=1 and https://e.f now")
  = lit "see " ++ lit "  and   now"
  /\ Main.url_at (lit "  and   now") = false.
Proof.
  assert (E : Main.stripUrls (lit "see http://a.b/c?d=1 and https://e.f now")
              = lit "see " ++ lit "  and   now") by reflexivity.
  split; [exact E|].
  exact (proj1 (stripUrls_leaves_no_url (lit "see http://a.b/c?d=1 and https://e.f now"))
           _ _ E).
Defined.

(** ** The averages of [computeMetrics] *)

Lemma avg_between (arr : list nat) (lo hi : nat) :
  0 < length arr -> (forall x, In x arr -> lo <= x <= hi) ->
  between lo hi (Main.avg arr).
Proof.
  intros Hl H. unfold Main.avg. rewrite sum_list_sum.
  destruct (length arr) as [|k] eqn:E; [lia|]. rewrite <- E in *.
  apply div_between; [exact Hl|].
  pose proof (list_sum_bounds (fun x => x) arr lo hi H) as Hb.
  now rewrite map_id in Hb.
Qed.

(** X20. What the averages of [computeMetrics] are taken of. The three lists of
    lengths hold, in the order of the rows, the number of tokens that
    [tokenize] returns for each review, stop words left out: [lengthsPos]
    for the positive rows, [lengthsNeg] for the negative rows,
    [lengthsOverall] for all the rows, those with an unrecognised label too.
    An average taken of a list that is not empty is a finite number between
    the smallest and the largest of those numbers of tokens; the bounds are
    whole numbers, and hold of the quotient whether it is rounded or not. *)
Theorem averages_of_token_counts (toLowerCase : jsstring -> jsstring)
    (rows : list Papa.Row) :
  let m := Main.computeMetrics toLowerCase rows in
  Main.lengthsPos (Main.result m)
  = map (tokenCount toLowerCase) (filter (positiveRow toLowerCase) rows)
  /\ Main.lengthsNeg (Main.result m)
     = map (tokenCount toLowerCase) (filter (negativeRow toLowerCase) rows)
  /\ Main.lengthsOverall (Main.result m) = map (tokenCount toLowerCase) rows
  /\ (forall lo hi : nat,
      0 < Main.posCount (Main.result m) ->
      (forall row, In row rows -> positiveRow toLowerCase row = true ->
         lo <= tokenCount toLowerCase row <= hi) ->
      between lo hi (Main.avgPos m))
  /\ (forall lo hi : nat,
      0 < Main.negCount (Main.result m) ->
      (forall row, In row rows -> negativeRow toLowerCase row = true ->
         lo <= tokenCount toLowerCase row <= hi) ->
      between lo hi (Main.avgNeg m))
  /\ (forall lo hi : nat,
      0 < Main.total (Main.result m) ->
      (forall row, In row rows -> lo <= tokenCount toLowerCase row <= hi) ->
      between lo hi (Main.avgOverall m)).
Proof.
  intros m.
  assert (Ep : Main.avgPos m = Main.avg (Main.lengthsPos (Main.result m))) by reflexivity.
  assert (En : Main.avgNeg m = Main.avg (Main.lengthsNeg (Main.result m))) by reflexivity.
  assert (Eo : Main.avgOverall m = Main.avg (Main.lengthsOverall (Main.result m)))
    by reflexivity.
  rewrite Ep, En, Eo. subst m. rewrite computeMetrics_result. simpl.
  assert (H : forall (l : list Papa.Row) (lo hi : nat), 0 < length l ->
             (forall row, In row l -> lo <= tokenCount toLowerCase row <= hi) ->
             between lo hi (Main.avg (map (tokenCount toLowerCase) l))).
  { intros l lo hi Hl Hb. apply avg_between; [now rewrite length_map|].
    intros x Hx. apply in_map_iff in Hx as [row [<- Hrow]]. now apply Hb. }
  split; [reflexivity|]. split; [reflexivity|]. split; [reflexivity|].
  split; [|split].
  - intros lo hi Hl Hb. apply H; [exact Hl|].
    intros row Hrow. apply filter_In in Hrow as [Hin Hp]. now apply Hb.
  - intros lo hi Hl Hb. apply H; [exact Hl|].
    intros row Hrow. apply filter_In in Hrow as [Hin Hp]. now apply Hb.
  - intros lo hi Hl Hb. now apply H.
Qed.

Lemma averages_of_token_counts_witness :
  0 < Main.posCount (Main.result (Main.computeMetrics toLowerCaseAscii
        [row "The film is great" "positive"; row "fun" "pos"; row "It is" "pos"]))
  /\ Main.lengthsPos (Main.result (Main.computeMetrics toLowerCaseAscii
        [row "The film is great" "positive"; row "fun" "pos"; row "It is" "pos"]))
     = [2; 1; 0]
  /\ between 0 2 (Main.avgPos (Main.computeMetrics toLowerCaseAscii
        [row "The film is great" "positive"; row "fun" "pos"; row "It is" "pos"])).
Proof.
  assert (H0 : 0 < Main.posCount (Main.result (Main.computeMetrics toLowerCaseAscii
        [row "The film is great" "positive"; row "fun" "pos"; row "It is" "pos"])))
    by (simpl; lia).
  split; [exact H0|].
  pose proof (averages_of_token_counts toLowerCaseAscii
                [row "The film is great" "positive"; row "fun" "pos"; row "It is" "pos"])
    as T.
  cbv zeta in T. destruct T as [E [_ [_ [T _]]]].
  split; [rewrite E; reflexivity|].
  apply (T 0 2 H0).
  intros r [<-|[<-|[<-|[]]]] _; vm_compute; lia.
Defined.
